(** * neo4j-request: a shallow embedding of the wrapper and its properties

    The development follows [src/index.ts] (and, for the comparison of the
    normalizers, [index.js] and the older build of the same file):

    - [Values]: the data the normalizer and the pruner work on, and the part
      of the neo4j-driver API they call;
    - [Normalizer]: [convertValues] and [extractRecords];
    - [Pruner]: [removeEmptyArrays] on values;
    - [Store]: the same two functions on a store of mutable objects, where
      the assignments of the source are visible;
    - [Bootstrap] and [Transactions]: [init], [connect] and the three
      transaction helpers over a driver whose answers are given. *)

From Stdlib Require Import ZArith String Ascii List Bool Lia.
From Stdlib Require Import DecimalString DecimalZ.
From stdpp Require Import base option list gmap.
Import ListNotations.

Local Open Scope string_scope.
Local Open Scope list_scope.
Local Open Scope Z_scope.

(** ** Values *)

Module Values.

(** A JavaScript number is an IEEE-754 double: not-a-number, an infinity or
    [(-1)^neg * m * 2^e]. *)
Inductive number : Type :=
| NaN
| Infinity (neg : bool)
| Finite (neg : bool) (m : N) (e : Z).

(** The double that holds the integer [z]. *)
Definition number_of_Z (z : Z) : number := Finite (z <? 0) (Z.abs_N z) 0.

(** The integer a double holds, when its exponent is zero. *)
Definition number_to_Z (n : number) : option Z :=
  match n with
  | Finite neg m 0 => Some (if neg then - Z.of_N m else Z.of_N m)
  | _ => None
  end.

(** The seven classes the temporal branch of [convertValues] tests for. *)
Inductive temporal_kind : Type :=
| Date | DateTime | LocalTime | LocalDateTime | Time | Duration | Point.

(** What [convertValues] can be handed: the JSON-like values, and the
    wrapper objects of the driver. A temporal or spatial object carries the
    string its [toString()] yields next to its own fields; a [Node] carries
    its identity, labels and property object. An object is the list of its
    own enumerable properties in [Object.keys] order. *)
#[local] Unset Elimination Schemes.
Inductive value : Type :=
| VUndefined
| VNull
| VBool (b : bool)
| VNum (n : number)
| VStr (s : string)
| VArr (elems : list value)
| VObj (fields : list (string * value))
| VInt (i : Z)
| VTemporal (k : temporal_kind) (repr : string) (fields : list (string * value))
| VNode (identity : value) (labels : list string) (properties : list (string * value)).
#[local] Set Elimination Schemes.

(** Induction over values that reaches the elements of arrays and the
    fields of objects. *)
Section value_induction.
Variable P : value -> Prop.
Hypothesis Hundef : P VUndefined.
Hypothesis Hnull : P VNull.
Hypothesis Hbool : forall b, P (VBool b).
Hypothesis Hnum : forall n, P (VNum n).
Hypothesis Hstr : forall s, P (VStr s).
Hypothesis Harr : forall l, Forall P l -> P (VArr l).
Hypothesis Hobj : forall fs, Forall (fun kv => P (snd kv)) fs -> P (VObj fs).
Hypothesis Hint : forall i, P (VInt i).
Hypothesis Htemporal :
  forall k s fs, Forall (fun kv => P (snd kv)) fs -> P (VTemporal k s fs).
Hypothesis Hnode :
  forall id ls ps, P id -> Forall (fun kv => P (snd kv)) ps -> P (VNode id ls ps).

Fixpoint value_ind' (v : value) : P v :=
  let fix elems (l : list value) : Forall P l :=
    match l with
    | [] => List.Forall_nil _
    | x :: l' => @List.Forall_cons _ P x l' (value_ind' x) (elems l')
    end in
  let fix fields (fs : list (string * value)) : Forall (fun kv => P (snd kv)) fs :=
    match fs with
    | [] => List.Forall_nil _
    | (k, x) :: fs' =>
        @List.Forall_cons _ (fun kv => P (snd kv)) (k, x) fs' (value_ind' x) (fields fs')
    end in
  match v with
  | VUndefined => Hundef
  | VNull => Hnull
  | VBool b => Hbool b
  | VNum n => Hnum n
  | VStr s => Hstr s
  | VArr l => Harr l (elems l)
  | VObj fs => Hobj fs (fields fs)
  | VInt i => Hint i
  | VTemporal k s fs => Htemporal k s fs (fields fs)
  | VNode id ls ps => Hnode id ls ps (value_ind' id) (fields ps)
  end.
End value_induction.

(** *** Tests of the language and of the driver *)

(** [value === null]. *)
Definition is_null (v : value) : bool :=
  match v with VNull => true | _ => false end.

(** [Array.isArray(value)]. *)
Definition isArray (v : value) : bool :=
  match v with VArr _ => true | _ => false end.

(** [typeof value === 'object']: [null], arrays, plain objects and every
    instance of a class of the driver. *)
Definition typeof_object (v : value) : bool :=
  match v with
  | VNull | VArr _ | VObj _ | VInt _ | VTemporal _ _ _ | VNode _ _ _ => true
  | VUndefined | VBool _ | VNum _ | VStr _ => false
  end.

(** [neo4j.isInt(value)]. *)
Definition isInt (v : value) : bool :=
  match v with VInt _ => true | _ => false end.

(** [neo4j.isDate(value) || ... || neo4j.isPoint(value)]. *)
Definition isTemporal (v : value) : bool :=
  match v with VTemporal _ _ _ => true | _ => false end.

(** [value instanceof neo4j.types.Node]. *)
Definition isNode (v : value) : bool :=
  match v with VNode _ _ _ => true | _ => false end.

(** The truth value of a value in a condition: [undefined], [null],
    [false], [NaN], both zeros and the empty string are falsy. *)
Definition truthy (v : value) : bool :=
  match v with
  | VUndefined | VNull => false
  | VBool b => b
  | VNum NaN => false
  | VNum (Infinity _) => true
  | VNum (Finite _ m _) => negb (N.eqb m 0)
  | VStr s => negb (String.eqb s "")
  | VArr _ | VObj _ | VInt _ | VTemporal _ _ _ | VNode _ _ _ => true
  end.

(** Applying [f] to the value of every field, keys and order kept. *)
Definition map_fields (f : value -> value) (fs : list (string * value))
  : list (string * value) :=
  map (fun kv => (fst kv, f (snd kv))) fs.

(** *** The driver's integers *)

(** Modelled from the spec: [neo4j.integer.inSafeRange] of the driver, which
    is not part of this repository: the integer lies between
    [Number.MIN_SAFE_INTEGER] and [Number.MAX_SAFE_INTEGER]. *)
Definition MAX_SAFE_INTEGER : Z := 2 ^ 53 - 1.
Definition MIN_SAFE_INTEGER : Z := - (2 ^ 53 - 1).

Definition inSafeRange (i : Z) : bool :=
  (MIN_SAFE_INTEGER <=? i) && (i <=? MAX_SAFE_INTEGER).

(** Modelled from the spec: [Integer.toNumber] of the driver: the native
    number of the same value. *)
Definition toNumber (i : Z) : number := number_of_Z i.

(** Modelled from the spec: [Integer.toString] of the driver: the decimal
    digits, with a minus sign for a negative integer. *)
Definition toString (i : Z) : string := NilZero.string_of_int (Z.to_int i).

(** Reading a decimal string back. *)
Definition parse_decimal (s : string) : option Z :=
  option_map Z.of_int (NilZero.int_of_string s).

End Values.

(** ** The normalizer *)

Module Normalizer.
Import Values.

(** [convertValues] of [src/index.ts] (and of the two builds made from
    it). The tests of the source are run in its order: [null]; the driver's
    integers; the temporal and spatial classes; a [Node], replaced by its
    property object, which then takes the object branch; arrays; objects;
    everything else. Only plain objects reach the object branch here, the
    instances of the driver's classes being caught before. *)
Fixpoint convertValues (value : value) : Values.value :=
  match value with
  | VNull => value
  | VInt i => if inSafeRange i then VNum (toNumber i) else VStr (toString i)
  | VTemporal _ repr _ => VStr repr
  | VNode _ _ properties => VObj (map_fields convertValues properties)
  | VArr elems => VArr (map convertValues elems)
  | VObj fields => VObj (map_fields convertValues fields)
  | VUndefined | VBool _ | VNum _ | VStr _ => value
  end.

(** [convertValues] of [index.js]: no test for [null] at the start (the
    object branch excludes it), the driver's integers first, no branch for
    the temporal and spatial classes, whose instances therefore take the
    object branch. The driver freezes these objects and [index.js] is not
    in strict mode: the assignments of the loop are dropped, and the object
    comes back as it was, its fields (numbers and integers of the driver)
    unconverted. *)
Fixpoint convertValues_js (value : value) : Values.value :=
  match value with
  | VInt i => if inSafeRange i then VNum (toNumber i) else VStr (toString i)
  | VNode _ _ properties => VObj (map_fields convertValues_js properties)
  | VArr elems => VArr (map convertValues_js elems)
  | VObj fields => VObj (map_fields convertValues_js fields)
  | VTemporal _ _ _ => value
  | VNull | VUndefined | VBool _ | VNum _ | VStr _ => value
  end.

(** [convertValues] of the older [index.js] (the third copy in the
    repository): [null], [Node], arrays and then every object, before the
    tests for integers and temporal values. An [Integer] is an object whose
    two fields [low] and [high] are numbers, so it takes the object branch
    and comes back as it is; so does a temporal or spatial object, which is
    frozen in a file that is not in strict mode. *)
Fixpoint convertValues_old (value : value) : Values.value :=
  match value with
  | VNull => value
  | VNode _ _ properties => VObj (map_fields convertValues_old properties)
  | VArr elems => VArr (map convertValues_old elems)
  | VObj fields => VObj (map_fields convertValues_old fields)
  | VInt i => VInt i
  | VTemporal _ _ _ => value
  | VUndefined | VBool _ | VNum _ | VStr _ => value
  end.

(** Modelled from the spec: a [Record] of the driver, which is not part of
    this repository: the column names with their values, in the order of
    the [RETURN] clause. [keys] is [record.keys], [get] is [record.get]. *)
Definition record : Type := list (string * value).

Definition keys (r : record) : list string := map fst r.

Fixpoint get (r : record) (key : string) : value :=
  match r with
  | [] => VUndefined
  | (k, v) :: r' => if String.eqb k key then v else get r' key
  end.

(** [obj[key] = v] on a plain object: an existing property keeps its
    place, a new one is added at the end. *)
Fixpoint set_property (obj : list (string * value)) (key : string) (v : value)
  : list (string * value) :=
  match obj with
  | [] => [(key, v)]
  | (k, x) :: obj' =>
      if String.eqb k key then (k, v) :: obj' else (k, x) :: set_property obj' key v
  end.

(** The argument of [extractRecords]: something falsy, something that is
    not an array, or an array of records. *)
Inductive data_arg : Type :=
| DFalsy
| DNotArray (v : value)
| DRecords (rs : list record).

(** The object built from one record. *)
Definition extractRecord (r : record) : value :=
  VObj (fold_left (fun obj key => set_property obj key (convertValues (get r key)))
          (keys r) []).

Definition extractRecords (data : data_arg) : value :=
  match data with
  | DFalsy => VArr []
  | DNotArray v => v
  | DRecords rs => VArr (map extractRecord rs)
  end.

(** A value without any object of the driver inside. *)
Fixpoint plain (v : value) : bool :=
  match v with
  | VUndefined | VNull | VBool _ | VNum _ | VStr _ => true
  | VArr elems => forallb plain elems
  | VObj fields => forallb (fun kv => plain (snd kv)) fields
  | VInt _ | VTemporal _ _ _ | VNode _ _ _ => false
  end.

(** A value in which no temporal or spatial object is converted: none is
    an element, a field or a property of a node at any depth. *)
Fixpoint no_temporal (v : value) : bool :=
  match v with
  | VUndefined | VNull | VBool _ | VNum _ | VStr _ | VInt _ => true
  | VArr elems => forallb no_temporal elems
  | VObj fields => forallb (fun kv => no_temporal (snd kv)) fields
  | VTemporal _ _ _ => false
  | VNode _ _ properties => forallb (fun kv => no_temporal (snd kv)) properties
  end.

(** The same for the integers of the driver. *)
Fixpoint no_integer (v : value) : bool :=
  match v with
  | VUndefined | VNull | VBool _ | VNum _ | VStr _ => true
  | VArr elems => forallb no_integer elems
  | VObj fields => forallb (fun kv => no_integer (snd kv)) fields
  | VInt _ => false
  | VTemporal _ _ fields => forallb (fun kv => no_integer (snd kv)) fields
  | VNode _ _ properties => forallb (fun kv => no_integer (snd kv)) properties
  end.

(** A key that an object lists where it was added: not one that reads as
    an array index (these begin with a digit, and an object lists them
    first, in numeric order) and not [__proto__] (assigning to it sets the
    prototype instead of a property). [set_property] is the assignment
    for such keys. *)
Definition ordinary_key (k : string) : bool :=
  negb (String.eqb k "__proto__") &&
  match k with
  | EmptyString => true
  | String c _ => negb ((48 <=? nat_of_ascii c)%nat && (nat_of_ascii c <=? 57)%nat)
  end.

(** The field [key] of the [n]-th object of an array of objects. *)
Definition field_at (result : value) (n : nat) (key : string) : option value :=
  match result with
  | VArr objs =>
      match nth_error objs n with
      | Some (VObj fs) => Some (get fs key)
      | _ => None
      end
  | _ => None
  end.

End Normalizer.

(** ** The pruner *)

Module Pruner.
Import Values.

(** How a call ends: with a value, or with the [TypeError] of reading a
    property of [null] or [undefined]. *)
Inductive outcome (A : Type) : Type :=
| Return (a : A)
| TypeError.
Arguments Return {A} a.
Arguments TypeError {A}.

Definition bind {A B : Type} (m : outcome A) (f : A -> outcome B) : outcome B :=
  match m with
  | Return a => f a
  | TypeError => TypeError
  end.

(** A computation that may also stop for lack of fuel ([None]). *)
Definition M (A : Type) : Type := option (outcome A).

Definition run_ret {A : Type} (a : A) : M A := Some (Return a).

Definition run_bind {A B : Type} (m : M A) (f : A -> M B) : M B :=
  match m with
  | Some (Return a) => f a
  | Some TypeError => Some TypeError
  | None => None
  end.

Notation "'let*' x ':=' m 'in' k" := (run_bind m (fun x => k))
  (at level 10, x name, m at level 100, k at level 200).

(** A loop over a list that builds the list of the results and stops at the
    first throw. *)
Fixpoint mapM {A B : Type} (f : A -> M B) (l : list A) : M (list B) :=
  match l with
  | [] => run_ret []
  | a :: l' => let* b := f a in let* bs := mapM f l' in run_ret (b :: bs)
  end.

(** The property key of the index [i] of an array: its decimal digits. *)
Definition index_key (i : nat) : string := toString (Z.of_nat i).

Fixpoint indexed_from {A : Type} (i : nat) (l : list A) : list (string * A) :=
  match l with
  | [] => []
  | a :: l' => (index_key i, a) :: indexed_from (S i) l'
  end.

(** The one-character strings of a string. *)
Fixpoint chars (s : string) : list value :=
  match s with
  | EmptyString => []
  | String c s' => VStr (String c EmptyString) :: chars s'
  end.

(** The properties a [for .. in] over [r] visits and [hasOwnProperty]
    accepts, with their values: the fields of an object, the elements of an
    array and the characters of a string under their indices. A [Node] has
    the fields [identity], [labels] (an array of strings) and [properties]
    (an object), an integer of the driver the numbers [low] and [high]: no
    array of theirs has an object as an element, so neither statement of
    the loop changes them, and their properties are left out. *)
Definition own_properties (r : value) : list (string * value) :=
  match r with
  | VObj fields | VTemporal _ _ fields => fields
  | VArr elems => indexed_from 0 elems
  | VStr s => indexed_from 0 (chars s)
  | VUndefined | VNull | VBool _ | VNum _ | VInt _ | VNode _ _ _ => []
  end.

(** [r] once its properties hold the values of [fs]. *)
Definition with_properties (r : value) (fs : list (string * value)) : value :=
  match r with
  | VObj _ => VObj fs
  | VTemporal k repr _ => VTemporal k repr fs
  | VArr _ => VArr (map snd fs)
  | _ => r
  end.

(** [r[key]] among the properties [fs] of [r]. A property that is not among
    them (inherited, or the [length] of an array or string) is a function,
    a number or an array without elements, on which every test below comes
    out as on [undefined]. *)
Fixpoint lookup_property (fs : list (string * value)) (key : string) : option value :=
  match fs with
  | [] => None
  | (k, v) :: fs' => if String.eqb k key then Some v else lookup_property fs' key
  end.

(** [r[key] = v] for a property [r] has. *)
Fixpoint assign_property (fs : list (string * value)) (key : string) (v : value)
  : list (string * value) :=
  match fs with
  | [] => []
  | (k, x) :: fs' =>
      if String.eqb k key then (k, v) :: fs' else (k, x) :: assign_property fs' key v
  end.

(** [e[checkKey] === null] for a truthy [e]. *)
Definition has_null_at (e : value) (checkKey : string) : bool :=
  match lookup_property (own_properties e) checkKey with
  | Some VNull => true
  | _ => false
  end.

(** The two nested conditions of the loop on the value [a] of
    [data[i][arrayKey]]:
    [a && Array.isArray(a) && a[0]] and then [a[0][checkKey] === null]. *)
Definition to_empty (a : option value) (checkKey : string) : bool :=
  match a with
  | Some (VArr (e :: _)) => truthy e && has_null_at e checkKey
  | _ => false
  end.

(** The first statement of the loop body on the record [r]: reading a
    property of [null] or [undefined] throws; otherwise the array at
    [arrayKey] is replaced by [[]] when the conditions hold. The result is
    the list of the properties of [r] after the statement. *)
Definition replace_step (arrayKey checkKey : string) (r : value)
  : outcome (list (string * value)) :=
  match r with
  | VUndefined | VNull => TypeError
  | _ =>
      let fs := own_properties r in
      Return (if to_empty (lookup_property fs arrayKey) checkKey
              then assign_property fs arrayKey (VArr [])
              else fs)
  end.

(** The [for .. in] of the loop body: every property that holds an array is
    handed to the recursive call, which works inside that array. *)
Definition for_in (recurse : list value -> M (list value))
  (fs : list (string * value)) : M (list (string * value)) :=
  mapM (fun kv =>
          match snd kv with
          | VArr elems => let* elems' := recurse elems in run_ret (fst kv, VArr elems')
          | _ => run_ret kv
          end) fs.

(** The body of the loop of [removeEmptyArrays] for [data[i] = r]. *)
Definition loop_body (recurse : list value -> M (list value))
  (arrayKey checkKey : string) (r : value) : M value :=
  let* fs := Some (replace_step arrayKey checkKey r) in
  let* fs' := for_in recurse fs in
  run_ret (with_properties r fs').

(** [removeEmptyArrays] with a bound on the depth of the recursive calls. *)
Fixpoint removeEmptyArrays_fuel (fuel : nat) (data : list value)
  (arrayKey checkKey : string) : M (list value) :=
  match fuel with
  | O => None
  | S fuel' =>
      mapM (loop_body (fun elems => removeEmptyArrays_fuel fuel' elems arrayKey checkKey)
              arrayKey checkKey) data
  end.

(** How deep arrays and objects are nested in a value. *)
Fixpoint depth (v : value) : nat :=
  match v with
  | VArr elems => S (fold_right (fun x d => Nat.max (depth x) d) O elems)
  | VObj fields | VTemporal _ _ fields =>
      S (fold_right (fun kv d => Nat.max (depth (snd kv)) d) O fields)
  | _ => O
  end.

(** [removeEmptyArrays(data, arrayKey, checkKey)]: the recursion is as deep
    as the data at most, so the bound below is never reached (see
    [removeEmptyArrays_fuel_enough]). *)
Definition removeEmptyArrays (data : list value) (arrayKey checkKey : string)
  : outcome (list value) :=
  match removeEmptyArrays_fuel (depth (VArr data)) data arrayKey checkKey with
  | Some r => r
  | None => TypeError
  end.

(** [null] and [undefined], on which reading a property throws. *)
Definition nullish (v : value) : bool :=
  match v with
  | VUndefined | VNull => true
  | _ => false
  end.

(** No array at any depth has [null] or [undefined] as an element. *)
Fixpoint no_nullish_element (v : value) : bool :=
  match v with
  | VArr elems => forallb (fun x => negb (nullish x) && no_nullish_element x) elems
  | VObj fields | VTemporal _ _ fields =>
      forallb (fun kv => no_nullish_element (snd kv)) fields
  | _ => true
  end.

(** Two values that are equal or both arrays: what the loop body can make
    of the value of a property. *)
Definition same_kind (v v' : value) : Prop :=
  v' = v \/ (isArray v = true /\ isArray v' = true).

(** Two lists of properties with the same keys and values of the same
    kind. *)
Definition same_kinds (fs fs' : list (string * value)) : Prop :=
  Forall2 (fun kv kv' => fst kv' = fst kv /\ same_kind (snd kv) (snd kv')) fs fs'.

(** Two records on which the conditions of the loop come out the same. *)
Definition same_shape (r r' : value) : Prop :=
  truthy r' = truthy r /\ forall key, has_null_at r' key = has_null_at r key.

(** No object of the value, at any depth, has a property of its own named
    [key]. *)
Fixpoint no_own_key (key : string) (v : value) : bool :=
  match v with
  | VArr elems => forallb (no_own_key key) elems
  | VObj fields | VTemporal _ _ fields | VNode _ _ fields =>
      forallb (fun kv => negb (String.eqb (fst kv) key) && no_own_key key (snd kv)) fields
  | _ => true
  end.


End Pruner.

(** ** The driver and the asynchronous functions *)

Module Runtime.
Import Values Normalizer.

(** What a promise is rejected with, or a statement throws. *)
Inductive reason : Type :=
| Message (text : string)
| TypeErrorOf (what : string)
| Neo4jError (code : string).

(** How an asynchronous call settles. *)
Inductive completion (A : Type) : Type :=
| Resolved (a : A)
| Rejected (r : reason).
Arguments Resolved {A} a.
Arguments Rejected {A} r.

Record ServerInfo : Type := { address : string; version : string }.

Inductive access_mode : Type := READ | WRITE.

(** [config] of the module, and the driver made from it. *)
Record Config : Type := {
  url : string;
  auth : string * string;
  database : string;
  options : list (string * value)
}.

Record Driver : Type := {
  driver_url : string;
  driver_auth : string * string;
  driver_options : list (string * value)
}.

(** One entry of the argument of [multipleStatements]. *)
Record Statement : Type := { statement : string; parameters : value }.

(** What the module does to the outside, in the order it does it. *)
Inductive event : Type :=
| NewDriver (d : Driver)
| VerifyConnectivity
| ConsoleLog (info : ServerInfo)
| ConsoleWarn (text : string)
| ConsoleError (text : string)
| SetTimeout (ms : Z)
| OnExit
| OpenSession (db : option string) (mode : option access_mode)
| ManagedTransaction (mode : access_mode) (query : string) (params : value)
| BeginTransaction
| Run (query : string) (params : value)
| Commit
| Rollback
| CloseSession.

(** Modelled from the spec: the answers of the driver and the server, which
    are not part of this repository. Every promise the module awaits on a
    query or a transaction may be rejected: the connectivity check (by the
    number of checks made before it), a managed read or write transaction,
    a statement of an explicit transaction (by its position), the commit
    and the rollback. Opening and closing a session, beginning a
    transaction and making a driver object only record what was asked. *)
Record behaviour : Type := {
  verifyConnectivity : nat -> ServerInfo + reason;
  managed : access_mode -> string -> value -> list record + reason;
  tx_run : nat -> string -> value -> list record + reason;
  tx_commit : option reason;
  tx_rollback : option reason
}.

(** The variables of the module, the events so far and the number of
    connectivity checks made. *)
Record world : Type := {
  config : option Config;
  driver : option Driver;
  multiDBSupport : bool;
  trace : list event;
  checks : nat
}.

Definition initial : world :=
  {| config := None; driver := None; multiDBSupport := false; trace := []; checks := O |}.

Definition Async (A : Type) : Type := world -> completion A * world.

Definition resolve {A : Type} (a : A) : Async A := fun w => (Resolved a, w).

Definition reject {A : Type} (r : reason) : Async A := fun w => (Rejected r, w).

Definition then_ {A B : Type} (m : Async A) (k : A -> Async B) : Async B :=
  fun w =>
    match m w with
    | (Resolved a, w') => k a w'
    | (Rejected r, w') => (Rejected r, w')
    end.

Notation "'await' x ':=' m 'in' k" := (then_ m (fun x => k))
  (at level 10, x name, m at level 100, k at level 200).
Notation "m ';;' k" := (then_ m (fun _ => k))
  (at level 100, k at level 200, right associativity).

(** [try { body } catch (e) { handler }]. *)
Definition try_catch {A : Type} (body : Async A) (handler : reason -> Async A) : Async A :=
  fun w =>
    match body w with
    | (Resolved a, w') => (Resolved a, w')
    | (Rejected r, w') => handler r w'
    end.

(** [try { body } finally { cleanup }]: the outcome of the body stands
    unless the cleanup throws. *)
Definition try_finally {A : Type} (body : Async A) (cleanup : Async unit) : Async A :=
  fun w =>
    match body w with
    | (c, w') =>
        match cleanup w' with
        | (Resolved _, w'') => (c, w'')
        | (Rejected r, w'') => (Rejected r, w'')
        end
    end.

Definition emit (e : event) : Async unit :=
  fun w => (Resolved tt,
            {| config := config w; driver := driver w; multiDBSupport := multiDBSupport w;
               trace := trace w ++ [e]; checks := checks w |}).

Definition set_config (c : Config) : Async unit :=
  fun w => (Resolved tt,
            {| config := Some c; driver := driver w; multiDBSupport := multiDBSupport w;
               trace := trace w; checks := checks w |}).

Definition set_driver (d : Driver) : Async unit :=
  fun w => (Resolved tt,
            {| config := config w; driver := Some d; multiDBSupport := multiDBSupport w;
               trace := trace w; checks := checks w |}).

Definition set_multiDBSupport (b : bool) : Async unit :=
  fun w => (Resolved tt,
            {| config := config w; driver := driver w; multiDBSupport := b;
               trace := trace w; checks := checks w |}).

Definition count_check : Async nat :=
  fun w => (Resolved (checks w),
            {| config := config w; driver := driver w; multiDBSupport := multiDBSupport w;
               trace := trace w; checks := S (checks w) |}).

Definition settle {A : Type} (answer : A + reason) : Async A :=
  match answer with
  | inl a => resolve a
  | inr r => reject r
  end.

Definition settle_unit (answer : option reason) : Async unit :=
  match answer with
  | None => resolve tt
  | Some r => reject r
  end.

(** A server that refuses the first [n] connectivity checks and accepts
    the later ones, and on which every query succeeds without records. *)
Definition refusing_first (n : nat) (info : ServerInfo) : behaviour :=
  {| verifyConnectivity :=
       fun k => if (k <? n)%nat then inr (Neo4jError "ServiceUnavailable") else inl info;
     managed := fun _ _ _ => inl [];
     tx_run := fun _ _ _ => inl [];
     tx_commit := None;
     tx_rollback := None |}.

(** A server that is reachable at once and refuses the statement at
    position [j] of an explicit transaction. *)
Definition refusing_statement (j : nat) : behaviour :=
  {| verifyConnectivity :=
       fun _ => inl {| address := "localhost:7687"; version := "Neo4j/4.4.3" |};
     managed := fun _ _ _ => inl [];
     tx_run :=
       fun i _ _ =>
         if (i =? j)%nat then inr (Neo4jError "SyntaxError")
         else inl [[("n", VInt (Z.of_nat i))]];
     tx_commit := None;
     tx_rollback := None |}.

(** The world after the events [es]. *)
Definition after (w : world) (es : list event) : world :=
  {| config := config w; driver := driver w; multiDBSupport := multiDBSupport w;
     trace := trace w ++ es; checks := checks w |}.

(** How many connectivity checks a trace holds. *)
Definition checks_in (t : list event) : nat :=
  length (List.filter (fun e => match e with VerifyConnectivity => true | _ => false end) t).

(** The timers set in a trace. *)
Definition timers_in (t : list event) : list Z :=
  flat_map (fun e => match e with SetTimeout ms => [ms] | _ => [] end) t.

(** The exit hooks registered in a trace. *)
Definition hooks_in (t : list event) : nat :=
  length (List.filter (fun e => match e with OnExit => true | _ => false end) t).

(** The driver objects made in a trace. *)
Definition drivers_in (t : list event) : nat :=
  length (List.filter (fun e => match e with NewDriver _ => true | _ => false end) t).

End Runtime.

(** ** Bootstrap: [init] and [connect] *)

Module Bootstrap.
Import Values Normalizer Runtime.

(** *** The version pattern [/^Neo4j\/(\d+).\d+.\d+/] *)

(** The classes of characters the pattern uses: a literal character, [\d]
    and the dot, which stands for every character but a line terminator. *)
Inductive char_class : Type :=
| Lit (c : ascii)
| Digit
| AnyChar.

Definition is_digit (c : ascii) : bool :=
  let n := nat_of_ascii c in (48 <=? n)%nat && (n <=? 57)%nat.

Definition is_line_terminator (c : ascii) : bool :=
  let n := nat_of_ascii c in (n =? 10)%nat || (n =? 13)%nat.

Definition in_class (cls : char_class) (c : ascii) : bool :=
  match cls with
  | Lit c' => Ascii.eqb c c'
  | Digit => is_digit c
  | AnyChar => negb (is_line_terminator c)
  end.

Inductive quantifier : Type := Once | OneOrMore.

(** A matcher reads a prefix of the string and answers with the pieces the
    items of the pattern matched, in their order. *)
Definition matcher : Type := string -> option (list string).

Definition once (cls : char_class) (k : matcher) : matcher :=
  fun s =>
    match s with
    | EmptyString => None
    | String c s' =>
        if in_class cls c
        then option_map (cons (String c EmptyString)) (k s')
        else None
    end.

(** [cls+]: as many characters as possible, giving them back one at a time
    while the rest of the pattern fails. *)
Fixpoint greedy (cls : char_class) (k : matcher) (s : string)
  : option (string * list string) :=
  match s with
  | EmptyString => None
  | String c s' =>
      if in_class cls c then
        match greedy cls k s' with
        | Some (m, pieces) => Some (String c m, pieces)
        | None =>
            match k s' with
            | Some pieces => Some (String c EmptyString, pieces)
            | None => None
            end
        end
      else None
  end.

Definition one_or_more (cls : char_class) (k : matcher) : matcher :=
  fun s => option_map (fun mp => fst mp :: snd mp) (greedy cls k s).

Definition item_matcher (it : char_class * quantifier) (k : matcher) : matcher :=
  match snd it with
  | Once => once (fst it) k
  | OneOrMore => one_or_more (fst it) k
  end.

(** A pattern anchored at the start and open at the end. *)
Definition match_prefix (pattern : list (char_class * quantifier)) : matcher :=
  fold_right item_matcher (fun _ => Some []) pattern.

Definition version_pattern : list (char_class * quantifier) :=
  [ (Lit "N", Once); (Lit "e", Once); (Lit "o", Once); (Lit "4", Once);
    (Lit "j", Once); (Lit "/", Once);
    (Digit, OneOrMore); (AnyChar, Once); (Digit, OneOrMore);
    (AnyChar, Once); (Digit, OneOrMore) ]%char.

(** [/^Neo4j\/(\d+).\d+.\d+/.exec(version)]: [None] for [null], else
    [matches[1]], the piece of the seventh item. *)
Definition exec_version (version : string) : option string :=
  match match_prefix version_pattern version with
  | Some pieces => nth_error pieces 6
  | None => None
  end.

(** A string made of characters of one class. *)
Fixpoint all_in (cls : char_class) (s : string) : bool :=
  match s with
  | EmptyString => true
  | String c s' => in_class cls c && all_in cls s'
  end.

(** A string that does not go on with a character of the class. *)
Definition stops (cls : char_class) (s : string) : bool :=
  match s with
  | EmptyString => true
  | String c _ => negb (in_class cls c)
  end.

(** [+digits] for a string of decimal digits. *)
Fixpoint digits_value (acc : Z) (digits : string) : Z :=
  match digits with
  | EmptyString => acc
  | String c s' => digits_value (10 * acc + Z.of_nat (nat_of_ascii c - 48)) s'
  end.

Definition to_number (digits : string) : Z := digits_value 0 digits.

(** *** The two functions *)

(** [Object.assign({ disableLosslessIntegers: true }, options)]. *)
Definition assign_options (options : list (string * value)) : list (string * value) :=
  fold_left (fun target kv => set_property target (fst kv) (snd kv)) options
    [("disableLosslessIntegers", VBool true)].

Section with_driver.
Variable server : behaviour.

(** [driver.verifyConnectivity()]. *)
Definition verify : Async ServerInfo :=
  emit VerifyConnectivity ;;
  await n := count_check in
  settle (verifyConnectivity server n).

(** [driver = neo4j.driver(config.url, config.auth, config.options)]. *)
Definition make_driver : Async unit :=
  fun w =>
    match config w with
    | None => reject (TypeErrorOf "config") w
    | Some c =>
        let d := {| driver_url := url c; driver_auth := auth c;
                    driver_options := options c |} in
        (emit (NewDriver d) ;; set_driver d) w
    end.

(** [connect(numberOfTrials)]. The promise made around [setTimeout]
    settles as the inner call does. *)
Fixpoint connect (numberOfTrials : nat) : Async ServerInfo :=
  make_driver ;;
  try_catch verify
    (fun reason =>
       match numberOfTrials with
       | S n =>
           emit (ConsoleWarn "Neo4j driver instantiation failed. Retry in 5 seconds...") ;;
           emit (SetTimeout 5000) ;;
           connect n
       | O =>
           emit (ConsoleError "Neo4j driver instantiation failed!") ;;
           reject reason
       end).

(** The lines of [init] between the connection and the exit hook: a
    [null] from [exec] makes [matches[1]] throw. *)
Definition check_version (serverInfo : ServerInfo) : Async unit :=
  match exec_version (version serverInfo) with
  | None => reject (TypeErrorOf "matches")
  | Some major =>
      if to_number major >? 3 then set_multiDBSupport true else resolve tt
  end.

(** [init(url, user, password, database = 'neo4j', options = {})]. *)
Definition init (url user password : string) (database : option string)
  (options : option (list (string * value))) : Async ServerInfo :=
  set_config {| url := url;
                auth := (user, password);
                database := default "neo4j" database;
                options := assign_options (default [] options) |} ;;
  try_catch
    (await serverInfo := connect 5 in
     emit (ConsoleLog serverInfo) ;;
     check_version serverInfo ;;
     emit OnExit ;;
     resolve serverInfo)
    (fun reason => reject reason).

End with_driver.

(** [getDriver()]. *)
Definition getDriver (w : world) : option Driver := driver w.

(** The configuration [init] stores, and the driver [connect] makes from
    a configuration. *)
Definition init_config (url user password : string) (database : option string)
  (options : option (list (string * value))) : Config :=
  {| url := url;
     auth := (user, password);
     database := default "neo4j" database;
     options := assign_options (default [] options) |}.

Definition driver_of (c : Config) : Driver :=
  {| driver_url := url c; driver_auth := auth c; driver_options := options c |}.

(** The events of one round of [connect]: the driver object and the
    check; after a refused check, the warning and the timer. *)
Definition attempt (c : Config) : list event := [NewDriver (driver_of c); VerifyConnectivity].

Definition retry_wait : list event :=
  [ConsoleWarn "Neo4j driver instantiation failed. Retry in 5 seconds..."; SetTimeout 5000].

Fixpoint failed_rounds (c : Config) (k : nat) : list event :=
  match k with
  | O => []
  | S k' => attempt c ++ retry_wait ++ failed_rounds c k'
  end.

(** The world once [connect] has made [k] checks with the events [es]. *)
Definition connecting (w : world) (c : Config) (k : nat) (es : list event) : world :=
  {| config := config w; driver := Some (driver_of c); multiDBSupport := multiDBSupport w;
     trace := trace w ++ es; checks := checks w + k |}.

(** A nonempty string of decimal digits. *)
Definition digits (s : string) : Prop := s <> EmptyString /\ all_in Digit s = true.

(** What the pattern accepts: [Neo4j/], digits, one character, digits, one
    character and digits, with anything behind; [major] is a way to read
    the first digits. *)
Definition version_shape (version major : string) : Prop :=
  exists sep1 minor sep2 patch rest,
    version
    = ("Neo4j/" ++ major ++ String sep1 (minor ++ String sep2 (patch ++ rest)))%string /\
    digits major /\ digits minor /\ digits patch /\
    in_class AnyChar sep1 = true /\ in_class AnyChar sep2 = true.

(** Whether a version sets the flag for several databases. *)
Definition supports_multiDB (version : string) : bool :=
  match exec_version version with
  | Some major => to_number major >? 3
  | None => false
  end.

(** [init] of [index.js], the older copy of the module: the driver is made
    once, the exit hook is registered before the connection is checked,
    and the connection is checked once. The error is logged with the
    reason, of which the event keeps the text. *)
Definition init_js (server : behaviour) (url user password : string)
  (database : option string) (options : option (list (string * value)))
  : Async ServerInfo :=
  let c := init_config url user password database options in
  set_config c ;;
  emit (NewDriver (driver_of c)) ;;
  set_driver (driver_of c) ;;
  emit OnExit ;;
  try_catch
    (await serverInfo := verify server in
     emit (ConsoleLog serverInfo) ;;
     check_version serverInfo ;;
     resolve serverInfo)
    (fun reason =>
       emit (ConsoleError "Neo4j driver instantiation failed") ;;
       reject reason).

End Bootstrap.

(** ** The transaction helpers *)

Module Transactions.
Import Values Normalizer Runtime.

Section with_driver.
Variable server : behaviour.

Definition not_initialized : reason := Message "Neo4j driver not initialized!".

(** [driver.session({ database: multiDBSupport ? config.database : null,
    defaultAccessMode: mode })], after the test [if (!driver)]. *)
Definition acquire_session (mode : option access_mode) : Async unit :=
  fun w =>
    match driver w with
    | None => reject not_initialized w
    | Some _ =>
        match (if multiDBSupport w
               then option_map Some (option_map database (config w))
               else Some None) with
        | Some db => emit (OpenSession db mode) w
        | None => reject (TypeErrorOf "config") w
        end
    end.

Definition transaction (mode : access_mode) (query : string) (params : value)
  : Async (list record) :=
  emit (ManagedTransaction mode query params) ;;
  settle (managed server mode query params).

(** [readTransaction(query, params = {})]. *)
Definition readTransaction (query : string) (params : option value) : Async value :=
  acquire_session (Some READ) ;;
  try_finally
    (try_catch
       (await records := transaction READ query (default (VObj []) params) in
        resolve (extractRecords (DRecords records)))
       (fun e => reject e))
    (emit CloseSession).

(** [writeTransaction(query, params = {})]. *)
Definition writeTransaction (query : string) (params : option value) : Async value :=
  acquire_session None ;;
  try_finally
    (try_catch
       (await records := transaction WRITE query (default (VObj []) params) in
        resolve (extractRecords (DRecords records)))
       (fun e => reject e))
    (emit CloseSession).

(** [txc.run(s.statement, s.parameters)] for the statement at position [i]. *)
Definition run (i : nat) (s : Statement) : Async (list record) :=
  emit (Run (statement s) (parameters s)) ;;
  settle (tx_run server i (statement s) (parameters s)).

(** The [for .. of] loop of [multipleStatements] from position [i] on,
    [results] being what was pushed so far. *)
Fixpoint run_statements (i : nat) (statements : list Statement) (results : list value)
  : Async (list value) :=
  match statements with
  | [] => resolve results
  | s :: rest =>
      await records := run i s in
      run_statements (S i) rest (results ++ [extractRecords (DRecords records)])
  end.

(** [multipleStatements(statements)]. *)
Definition multipleStatements (statements : list Statement) : Async (list value) :=
  acquire_session None ;;
  emit BeginTransaction ;;
  try_finally
    (try_catch
       (await results := run_statements 0 statements [] in
        emit Commit ;;
        settle_unit (tx_commit server) ;;
        resolve results)
       (fun e =>
          emit Rollback ;;
          settle_unit (tx_rollback server) ;;
          reject e))
    (emit CloseSession).

(** What the server answers to the statements from position [i] on: the
    records of each, or the position (counted from [i]) and the reason of
    the first one it refuses. *)
Fixpoint answers (i : nat) (statements : list Statement)
  : list (list record) + (nat * reason) :=
  match statements with
  | [] => inl []
  | s :: rest =>
      match tx_run server i (statement s) (parameters s) with
      | inr r => inr (O, r)
      | inl records =>
          match answers (S i) rest with
          | inl others => inl (records :: others)
          | inr (j, r) => inr (S j, r)
          end
      end
  end.

(** The [Run] events of a list of statements. *)
Definition runs (statements : list Statement) : list event :=
  map (fun s => Run (statement s) (parameters s)) statements.

(** The session a helper opens in the world [w]: the database of the
    configuration when several databases are supported. *)
Definition session_database (w : world) : option string :=
  if multiDBSupport w then option_map database (config w) else None.

(** The reason [multipleStatements] is rejected with after the error [r]:
    that of the rollback when the rollback fails too. *)
Definition after_rollback (r : reason) : reason :=
  match tx_rollback server with
  | None => r
  | Some r' => r'
  end.

(** The server accepts every statement, answering with [rss] in the order
    of the statements. *)
Definition every_statement_succeeds (statements : list Statement)
  (rss : list (list record)) : Prop :=
  length rss = length statements /\
  forall j s, nth_error statements j = Some s ->
    exists rs, nth_error rss j = Some rs /\
               tx_run server j (statement s) (parameters s) = inl rs.

(** The server refuses one of the statements. *)
Definition some_statement_fails (statements : list Statement) : Prop :=
  exists j s r, nth_error statements j = Some s /\
                tx_run server j (statement s) (parameters s) = inr r.

(** An event that opens or closes a session. *)
Definition session_event (e : event) : bool :=
  match e with
  | OpenSession _ _ | CloseSession => true
  | _ => false
  end.

End with_driver.

(** A world in which a helper can open its session: the driver exists, and
    so does the configuration when the database is read from it. *)
Definition ready (w : world) : Prop :=
  (exists d, driver w = Some d) /\
  (multiDBSupport w = true -> exists c, config w = Some c).

(** A call made in the world [w] that either acquires no session, and is
    rejected at once, or opens one session and closes it as the last thing
    it does. *)
Definition releases_session {A : Type} (w : world) (call : completion A * world) : Prop :=
  (exists r, call = (Rejected r, w)) \/
  (exists db mode middle,
     trace (snd call) = trace w ++ OpenSession db mode :: middle ++ [CloseSession] /\
     forallb (fun e => negb (session_event e)) middle = true).

End Transactions.

(** ** The same functions on a store of objects

    In the source an array or an object is a reference, and both functions
    assign into the objects they are given. Here a value is a primitive or
    the location of an object in a store, and the functions thread the
    store. *)

Module Store.
Import Values.
Export Pruner (outcome, Return, TypeError).

Definition loc : Type := nat.

Inductive ref : Type :=
| Undefined
| Null
| Bool (b : bool)
| Num (n : number)
| Str (s : string)
| Ref (l : loc).

Inductive object : Type :=
| Arr (elems : list ref)
| Obj (fields : list (string * ref))
| Int (i : Z)
| Temporal (k : temporal_kind) (repr : string) (fields : list (string * ref))
| Node (identity : ref) (labels : list string) (properties : ref).

Abbreviation store := (gmap loc object).

(** A step on the store: it returns or throws, with the store it leaves;
    [None] when the fuel is used up or a location holds nothing. *)
Definition St (A : Type) : Type := store -> option (outcome A * store).

Definition ret {A : Type} (a : A) : St A := fun σ => Some (Return a, σ).

Definition throw {A : Type} : St A := fun σ => Some (TypeError, σ).

Definition stuck {A : Type} : St A := fun _ => None.

Definition bind {A B : Type} (m : St A) (k : A -> St B) : St B :=
  fun σ =>
    match m σ with
    | Some (Return a, σ') => k a σ'
    | Some (TypeError, σ') => Some (TypeError, σ')
    | None => None
    end.

Notation "'let!' x ':=' m 'in' k" := (bind m (fun x => k))
  (at level 10, x name, m at level 100, k at level 200).

Definition deref (l : loc) : St object :=
  fun σ =>
    match σ !! l with
    | Some o => Some (Return o, σ)
    | None => None
    end.

Definition update (l : loc) (o : object) : St unit :=
  fun σ => Some (Return tt, <[l := o]> σ).

(** A new object, at a location not in use. *)
Definition alloc (o : object) : St ref :=
  fun σ => let l := fresh (dom σ) in Some (Return (Ref l), <[l := o]> σ).

(** A loop that runs [f] on the elements in order. *)
Fixpoint for_each {A : Type} (f : A -> St unit) (l : list A) : St unit :=
  match l with
  | [] => ret tt
  | a :: l' => let! _ := f a in for_each f l'
  end.

(** [array.map(f)] without the allocation of the result. *)
Fixpoint map_each {A B : Type} (f : A -> St B) (l : list A) : St (list B) :=
  match l with
  | [] => ret []
  | a :: l' => let! b := f a in let! bs := map_each f l' in ret (b :: bs)
  end.

Definition truthy (v : ref) : bool :=
  match v with
  | Undefined | Null => false
  | Bool b => b
  | Num NaN => false
  | Num (Infinity _) => true
  | Num (Finite _ m _) => negb (N.eqb m 0)
  | Str s => negb (String.eqb s "")
  | Ref _ => true
  end.

(** [Array.isArray(v)]. *)
Definition isArray (v : ref) : St bool :=
  match v with
  | Ref l =>
      let! o := deref l in
      ret (match o with Arr _ => true | _ => false end)
  | _ => ret false
  end.

Definition chars (s : string) : list ref :=
  map (fun c => Str (String c EmptyString)) (list_ascii_of_string s).

(** The own enumerable properties of an object, as in
    [Pruner.own_properties]. *)
Definition object_properties (o : object) : list (string * ref) :=
  match o with
  | Obj fields | Temporal _ _ fields => fields
  | Arr elems => Pruner.indexed_from 0 elems
  | Int _ | Node _ _ _ => []
  end.

Definition own_properties (r : ref) : St (list (string * ref)) :=
  match r with
  | Ref l => let! o := deref l in ret (object_properties o)
  | Str s => ret (Pruner.indexed_from 0 (chars s))
  | _ => ret []
  end.

Fixpoint lookup_property (fs : list (string * ref)) (key : string) : ref :=
  match fs with
  | [] => Undefined
  | (k, v) :: fs' => if String.eqb k key then v else lookup_property fs' key
  end.

(** [r[key]]: a [TypeError] on [null] and [undefined]. *)
Definition get (r : ref) (key : string) : St ref :=
  match r with
  | Undefined | Null => throw
  | _ => let! fs := own_properties r in ret (lookup_property fs key)
  end.

Fixpoint assign_property (fs : list (string * ref)) (key : string) (v : ref)
  : list (string * ref) :=
  match fs with
  | [] => []
  | (k, x) :: fs' =>
      if String.eqb k key then (k, v) :: fs' else (k, x) :: assign_property fs' key v
  end.

(** [r[key] = v] for a property that [r] has. *)
Definition set (r : ref) (key : string) (v : ref) : St unit :=
  match r with
  | Ref l =>
      let! o := deref l in
      match o with
      | Obj fields => update l (Obj (assign_property fields key v))
      | Temporal k repr fields => update l (Temporal k repr (assign_property fields key v))
      | Arr elems =>
          update l (Arr (map snd (assign_property (Pruner.indexed_from 0 elems) key v)))
      | Int _ | Node _ _ _ => ret tt
      end
  | _ => ret tt
  end.

(** [data.length] of an array. *)
Definition length_of (data : ref) : St nat :=
  match data with
  | Ref l =>
      let! o := deref l in
      match o with
      | Arr elems => ret (length elems)
      | _ => stuck
      end
  | _ => stuck
  end.

(** [data[i]] of an array. *)
Definition index (data : ref) (i : nat) : St ref :=
  match data with
  | Ref l =>
      let! o := deref l in
      match o with
      | Arr elems => ret (nth i elems Undefined)
      | _ => stuck
      end
  | _ => stuck
  end.

(** The first statement of the loop body of [removeEmptyArrays]. *)
Definition replace_step (data : ref) (i : nat) (arrayKey checkKey : string) : St unit :=
  let! r := index data i in
  let! a := get r arrayKey in
  let! is_arr := isArray a in
  if truthy a && is_arr then
    let! e := index a 0 in
    if truthy e then
      let! c := get e checkKey in
      match c with
      | Null => let! empty := alloc (Arr []) in set r arrayKey empty
      | _ => ret tt
      end
    else ret tt
  else ret tt.

(** One round of the [for .. in] of the loop body, for the property
    [key] of [data[i]]. *)
Definition for_in_step (recurse : ref -> St ref) (data : ref) (i : nat) (key : string)
  : St unit :=
  let! r := index data i in
  let! v := get r key in
  let! is_arr := isArray v in
  if is_arr then let! _ := recurse v in ret tt else ret tt.

(** The body of the loop of [removeEmptyArrays] for the index [i]. The
    array and the record are read from the store each time the source
    writes [data[i]]. *)
Definition loop_body (recurse : ref -> St ref) (data : ref) (i : nat)
  (arrayKey checkKey : string) : St unit :=
  let! _ := replace_step data i arrayKey checkKey in
  let! r := index data i in
  let! fs := own_properties r in
  for_each (for_in_step recurse data i) (map fst fs).

(** [removeEmptyArrays(data, arrayKey, checkKey)] with a bound on the depth
    of the recursive calls. *)
Fixpoint removeEmptyArrays (fuel : nat) (data : ref) (arrayKey checkKey : string)
  : St ref :=
  match fuel with
  | O => stuck
  | S fuel' =>
      let! l := length_of data in
      let! _ :=
        for_each
          (fun i =>
             loop_body (fun v => removeEmptyArrays fuel' v arrayKey checkKey)
               data i arrayKey checkKey)
          (seq 0 l) in
      ret data
  end.

(** The object branch of [convertValues]:
    [for (const key of Object.keys(value)) value[key] = convertValues(value[key])]. *)
Definition convert_fields (recurse : ref -> St ref) (value : ref) : St unit :=
  let! fs := own_properties value in
  for_each
    (fun key =>
       let! v := get value key in
       let! v' := recurse v in
       set value key v')
    (map fst fs).

(** The branches of [convertValues] after the one for a [Node]. *)
Definition convert_rest (recurse : ref -> St ref) (value : ref) : St ref :=
  match value with
  | Ref l =>
      let! o := deref l in
      match o with
      | Arr elems => let! elems' := map_each recurse elems in alloc (Arr elems')
      | Obj _ => let! _ := convert_fields recurse value in ret value
      | Int _ | Temporal _ _ _ | Node _ _ _ => stuck
      end
  | Null => throw
  | _ => ret value
  end.

(** [convertValues(value)] of [src/index.ts] with a bound on the depth of
    the recursive calls. The property object of a [Node] is a plain
    object; the store has no other. *)
Fixpoint convertValues (fuel : nat) (value : ref) : St ref :=
  match fuel with
  | O => stuck
  | S fuel' =>
      match value with
      | Null => ret value
      | Ref l =>
          let! o := deref l in
          match o with
          | Int i =>
              ret (if inSafeRange i then Num (toNumber i) else Str (toString i))
          | Temporal _ repr _ => ret (Str repr)
          | Node _ _ properties => convert_rest (convertValues fuel') properties
          | Arr _ | Obj _ => convert_rest (convertValues fuel') value
          end
      | _ => ret value
      end
  end.

(** Putting a value into the store, and reading one back. *)
Fixpoint alloc_value (v : value) : St ref :=
  match v with
  | VUndefined => ret Undefined
  | VNull => ret Null
  | VBool b => ret (Bool b)
  | VNum n => ret (Num n)
  | VStr s => ret (Str s)
  | VArr elems => let! rs := map_each alloc_value elems in alloc (Arr rs)
  | VObj fields =>
      let! rs := map_each (fun kv => let! r := alloc_value (snd kv) in ret (fst kv, r)) fields in
      alloc (Obj rs)
  | VInt i => alloc (Int i)
  | VTemporal k repr fields =>
      let! rs := map_each (fun kv => let! r := alloc_value (snd kv) in ret (fst kv, r)) fields in
      alloc (Temporal k repr rs)
  | VNode identity labels properties =>
      let! id := alloc_value identity in
      let! rs := map_each (fun kv => let! r := alloc_value (snd kv) in ret (fst kv, r)) properties in
      let! ps := alloc (Obj rs) in
      alloc (Node id labels ps)
  end.




End Store.

(** * Properties *)

(** ** The normalizer *)

Section normalizer_properties.
Import Values Normalizer.

Lemma inSafeRange_spec (i : Z) :
  inSafeRange i = true <-> MIN_SAFE_INTEGER <= i <= MAX_SAFE_INTEGER.
Proof.
  unfold inSafeRange. rewrite andb_true_iff, !Z.leb_le. tauto.
Qed.

Lemma number_to_Z_of_Z (i : Z) : number_to_Z (number_of_Z i) = Some i.
Proof.
  unfold number_of_Z, number_to_Z. f_equal.
  rewrite N2Z.inj_abs_N.
  destruct (Z.ltb_spec i 0); lia.
Qed.

Lemma number_of_Z_inj (i j : Z) : number_of_Z i = number_of_Z j -> i = j.
Proof.
  intros H. apply (f_equal number_to_Z) in H.
  rewrite !number_to_Z_of_Z in H. congruence.
Qed.

(** The decimal string of an integer reads back as that integer. *)
Lemma parse_decimal_toString (i : Z) : parse_decimal (toString i) = Some i.
Proof.
  unfold parse_decimal, toString.
  assert (Hnorm : Decimal.norm (Z.to_int i) = Z.to_int i).
  { rewrite <- DecimalZ.to_of, DecimalZ.of_to. reflexivity. }
  rewrite NilZero.isi.
  - simpl. f_equal. apply DecimalZ.of_to.
  - intros E. rewrite E in Hnorm. discriminate.
  - intros E. rewrite E in Hnorm. discriminate.
Qed.

Lemma toString_inj (i j : Z) : toString i = toString j -> i = j.
Proof.
  intros H. apply (f_equal parse_decimal) in H.
  rewrite !parse_decimal_toString in H. congruence.
Qed.

(** What [set_property] leaves at a key. *)
Lemma get_set_property obj key key' v :
  get (set_property obj key v) key' =
  if String.eqb key key' then v else get obj key'.
Proof.
  induction obj as [| [k x] obj IH]; simpl.
  - destruct (String.eqb key key'); reflexivity.
  - destruct (String.eqb_spec k key) as [-> | Hk]; simpl.
    + destruct (String.eqb key key'); reflexivity.
    + rewrite IH. destruct (String.eqb_spec k key') as [-> | Hk'].
      * destruct (String.eqb_spec key key'); congruence.
      * reflexivity.
Qed.

(** The object built from a record holds, under every column name of the
    record, the converted value of that column. *)
Lemma get_extracted (f : value -> value) (r : record) (ks : list string)
  (obj : list (string * value)) (key : string) :
  get (fold_left (fun o k => set_property o k (f (get r k))) ks obj) key =
  if existsb (String.eqb key) ks then f (get r key) else get obj key.
Proof.
  revert obj. induction ks as [| k ks IH]; intros obj; simpl.
  - reflexivity.
  - rewrite IH. rewrite get_set_property.
    destruct (existsb (String.eqb key) ks); simpl.
    + rewrite orb_true_r. reflexivity.
    + rewrite orb_false_r. rewrite String.eqb_sym.
      destruct (String.eqb_spec key k) as [-> | Hk]; reflexivity.
Qed.

Lemma field_at_extractRecords (rs : list record) (n : nat) (r : record) (key : string) :
  nth_error rs n = Some r -> In key (keys r) ->
  field_at (extractRecords (DRecords rs)) n key = Some (convertValues (get r key)).
Proof.
  intros Hn Hkey. unfold field_at, extractRecords.
  rewrite nth_error_map, Hn. simpl. f_equal.
  rewrite get_extracted.
  assert (H : existsb (String.eqb key) (keys r) = true).
  { apply existsb_exists. exists key. split; [assumption | apply String.eqb_refl]. }
  rewrite H. reflexivity.
Qed.

(** C3. For every integer of the driver, [convertValues] returns the
    native number of the same value when the integer lies in the safe
    range, and the decimal string of the integer otherwise; a record
    handed to [extractRecords] holds that result under the column of the
    integer. *)
Theorem convertValues_integer (i : Z) :
  (MIN_SAFE_INTEGER <= i <= MAX_SAFE_INTEGER ->
   exists n, convertValues (VInt i) = VNum n /\ number_to_Z n = Some i) /\
  (~ MIN_SAFE_INTEGER <= i <= MAX_SAFE_INTEGER ->
   exists s, convertValues (VInt i) = VStr s /\ s = toString i /\ parse_decimal s = Some i) /\
  (forall (rs : list record) (n : nat) (r : record) (key : string),
     nth_error rs n = Some r -> In key (keys r) -> get r key = VInt i ->
     field_at (extractRecords (DRecords rs)) n key = Some (convertValues (VInt i))).
Proof.
  split; [| split].
  - intros Hsafe. apply inSafeRange_spec in Hsafe.
    exists (toNumber i). simpl. rewrite Hsafe. split; [reflexivity |].
    apply number_to_Z_of_Z.
  - intros Hout. exists (toString i). simpl.
    destruct (inSafeRange i) eqn:E.
    + apply inSafeRange_spec in E. contradiction.
    + split; [reflexivity | split; [reflexivity | apply parse_decimal_toString]].
  - intros rs n r key Hn Hkey Hget.
    rewrite <- Hget. apply field_at_extractRecords; assumption.
Qed.

Lemma convertValues_integer_witness :
  (exists n, convertValues (VInt 42) = VNum n /\ number_to_Z n = Some 42) /\
  (exists s, convertValues (VInt (2 ^ 53)) = VStr s /\ s = toString (2 ^ 53) /\
             parse_decimal s = Some (2 ^ 53)) /\
  field_at (extractRecords (DRecords [[("n", VInt 42); ("m", VNull)]])) 0 "n"
  = Some (convertValues (VInt 42)).
Proof.
  split; [| split].
  - apply (convertValues_integer 42). unfold MIN_SAFE_INTEGER, MAX_SAFE_INTEGER. lia.
  - apply (convertValues_integer (2 ^ 53)). unfold MIN_SAFE_INTEGER, MAX_SAFE_INTEGER. lia.
  - apply (convertValues_integer 42) with (r := [("n", VInt 42); ("m", VNull)]).
    + reflexivity.
    + simpl. left. reflexivity.
    + reflexivity.
Defined.

Lemma map_fields_id (f : value -> value) (fs : list (string * value)) :
  Forall (fun kv => f (snd kv) = snd kv) fs -> map_fields f fs = fs.
Proof.
  unfold map_fields. induction 1 as [| [k v] fs Hv _ IH]; simpl in *.
  - reflexivity.
  - rewrite Hv, IH. reflexivity.
Qed.

Lemma map_fields_ext (f g : value -> value) (fs : list (string * value)) :
  Forall (fun kv => f (snd kv) = g (snd kv)) fs -> map_fields f fs = map_fields g fs.
Proof.
  unfold map_fields. induction 1 as [| [k v] fs Hv _ IH]; simpl in *.
  - reflexivity.
  - rewrite Hv, IH. reflexivity.
Qed.

Lemma map_id_Forall {A : Type} (f : A -> A) (l : list A) :
  Forall (fun x => f x = x) l -> map f l = l.
Proof.
  induction 1 as [| x l Hx _ IH]; simpl; [reflexivity | rewrite Hx, IH; reflexivity].
Qed.

Lemma map_ext_Forall' {A B : Type} (f g : A -> B) (l : list A) :
  Forall (fun x => f x = g x) l -> map f l = map g l.
Proof.
  induction 1 as [| x l Hx _ IH]; simpl; [reflexivity | rewrite Hx, IH; reflexivity].
Qed.

(** A property that holds under a condition for all elements holds for
    those that meet the condition. *)
Lemma Forall_guarded {A : Type} (p : A -> bool) (Q : A -> Prop) (l : list A) :
  Forall (fun x => p x = true -> Q x) l -> forallb p l = true -> Forall Q l.
Proof.
  induction 1 as [| x l Hx _ IH]; simpl; intros Hp.
  - constructor.
  - apply andb_true_iff in Hp as [Hpx Hpl]. constructor; auto.
Qed.

Lemma convertValues_plain_id (v : value) : plain v = true -> convertValues v = v.
Proof.
  induction v as [| | b | n | s | l IH | fs IH | i | k s fs IH | id ls ps _ IH]
    using value_ind'; simpl; intros Hp; try reflexivity; try discriminate.
  - f_equal. apply map_id_Forall.
    apply (Forall_guarded plain); assumption.
  - f_equal. apply map_fields_id.
    apply (Forall_guarded (fun kv => plain (snd kv)) (fun kv => convertValues (snd kv) = snd kv));
      assumption.
Qed.

(** C8. On a value built from plain scalars, [null], arrays and plain
    objects only, [convertValues] returns a value equal to its argument;
    it converts an array element by element and a plain object field by
    field, and returns [null], [undefined], booleans, numbers and strings
    as they are. *)
Theorem convertValues_plain :
  (forall v : value, plain v = true -> convertValues v = v) /\
  (forall elems, convertValues (VArr elems) = VArr (map convertValues elems)) /\
  (forall fields,
     convertValues (VObj fields) =
     VObj (map (fun kv => (fst kv, convertValues (snd kv))) fields)) /\
  convertValues VNull = VNull /\
  convertValues VUndefined = VUndefined /\
  (forall b, convertValues (VBool b) = VBool b) /\
  (forall n, convertValues (VNum n) = VNum n) /\
  (forall s, convertValues (VStr s) = VStr s).
Proof.
  repeat split; try reflexivity. apply convertValues_plain_id.
Qed.

Lemma convertValues_plain_witness :
  convertValues
    (VObj [("name", VStr "Alex"); ("tags", VArr [VNull; VBool true; VNum (Finite false 3 0)])])
  = VObj [("name", VStr "Alex"); ("tags", VArr [VNull; VBool true; VNum (Finite false 3 0)])].
Proof.
  apply (proj1 convertValues_plain). reflexivity.
Defined.

(** The three copies of [convertValues] agree where the branches they do
    not share are not taken. *)
Lemma convertValues_js_agrees (v : value) :
  no_temporal v = true -> convertValues v = convertValues_js v.
Proof.
  induction v as [| | b | n | s | l IH | fs IH | i | k s fs IH | id ls ps _ IH]
    using value_ind'; simpl; intros Hp; try reflexivity; try discriminate.
  - f_equal. apply map_ext_Forall'.
    apply (Forall_guarded no_temporal); assumption.
  - f_equal. apply map_fields_ext.
    apply (Forall_guarded (fun kv => no_temporal (snd kv))
             (fun kv => convertValues (snd kv) = convertValues_js (snd kv))); assumption.
  - f_equal. apply map_fields_ext.
    apply (Forall_guarded (fun kv => no_temporal (snd kv))
             (fun kv => convertValues (snd kv) = convertValues_js (snd kv))); assumption.
Qed.

Lemma convertValues_old_agrees (v : value) :
  no_temporal v = true -> no_integer v = true -> convertValues v = convertValues_old v.
Proof.
  induction v as [| | b | n | s | l IH | fs IH | i | k s fs IH | id ls ps _ IH]
    using value_ind'; simpl; intros Ht Hi; try reflexivity; try discriminate.
  - f_equal. apply map_ext_Forall'.
    rewrite forallb_forall in Ht, Hi. rewrite List.Forall_forall in IH |- *.
    intros x Hx. apply IH; auto.
  - f_equal. apply map_fields_ext.
    rewrite forallb_forall in Ht, Hi. rewrite List.Forall_forall in IH |- *.
    intros x Hx. apply IH; auto.
  - f_equal. apply map_fields_ext.
    rewrite forallb_forall in Ht, Hi. rewrite List.Forall_forall in IH |- *.
    intros x Hx. apply IH; auto.
Qed.

(** C9, as the code has it. The copy in [src/index.ts] and the one in
    [index.js] return the same result on every value in which no temporal
    or spatial object is converted, and all three copies return the same
    result on every value that holds neither such an object nor an integer
    of the driver. *)
Theorem convertValues_copies_agree (v : value) :
  (no_temporal v = true -> convertValues v = convertValues_js v) /\
  (no_temporal v = true -> no_integer v = true ->
   convertValues v = convertValues_old v /\ convertValues_js v = convertValues_old v).
Proof.
  split.
  - apply convertValues_js_agrees.
  - intros Ht Hi. split.
    + apply convertValues_old_agrees; assumption.
    + rewrite <- convertValues_js_agrees by assumption.
      apply convertValues_old_agrees; assumption.
Qed.

Lemma convertValues_copies_agree_witness :
  convertValues (VObj [("n", VNode (VInt 1) ["Person"] [("age", VInt 30)])])
  = convertValues_js (VObj [("n", VNode (VInt 1) ["Person"] [("age", VInt 30)])]) /\
  (convertValues (VArr [VNode VNull ["Person"] [("name", VStr "Alex")]])
   = convertValues_old (VArr [VNode VNull ["Person"] [("name", VStr "Alex")]]) /\
   convertValues_js (VArr [VNode VNull ["Person"] [("name", VStr "Alex")]])
   = convertValues_old (VArr [VNode VNull ["Person"] [("name", VStr "Alex")]])).
Proof.
  split.
  - apply (convertValues_copies_agree
             (VObj [("n", VNode (VInt 1) ["Person"] [("age", VInt 30)])])).
    reflexivity.
  - apply (convertValues_copies_agree
             (VArr [VNode VNull ["Person"] [("name", VStr "Alex")]])); reflexivity.
Defined.

(** C9, as stated, fails: on an integer of the driver the older copy
    returns the integer object where the other two return a number, and on
    a temporal value only the copy in [src/index.ts] returns a string. *)
Lemma convertValues_copies_differ :
  convertValues (VInt 7) <> convertValues_old (VInt 7) /\
  convertValues_js (VInt 7) <> convertValues_old (VInt 7) /\
  convertValues (VTemporal Date "2020-01-01" [("year", VInt 2020)])
  <> convertValues_js (VTemporal Date "2020-01-01" [("year", VInt 2020)]) /\
  convertValues (VTemporal Date "2020-01-01" [("year", VInt 2020)])
  <> convertValues_old (VTemporal Date "2020-01-01" [("year", VInt 2020)]).
Proof.
  repeat split; discriminate.
Qed.

End normalizer_properties.

(** ** Bootstrap *)

Section bootstrap_properties.
Import Values Normalizer Runtime Bootstrap.
Variable server : behaviour.

Ltac async_unfold :=
  repeat (progress
            (unfold then_, try_catch, try_finally, emit, count_check, set_driver,
               set_config, set_multiDBSupport, settle, settle_unit, resolve, reject,
               make_driver, verify;
             cbn [config driver multiDBSupport trace checks fst snd])).

(** One round of [connect]: the driver is made anew, connectivity is
    checked, and a failed check is followed by the warning and the timer
    of five seconds while trials remain. *)
Lemma connect_success (n : nat) (w : world) (c : Config) (info : ServerInfo) :
  config w = Some c ->
  verifyConnectivity server (checks w) = inl info ->
  exists w', connect server n w = (Resolved info, w') /\
             multiDBSupport w' = multiDBSupport w /\
             config w' = config w.
Proof.
  intros Hc Hv.
  destruct n; cbn [connect]; async_unfold; rewrite Hc; async_unfold; rewrite Hv;
    eexists; (split; [reflexivity | split; [reflexivity | simpl; congruence]]).
Qed.

Lemma connect_retry (n : nat) (w : world) (c : Config) (r : reason) :
  config w = Some c ->
  verifyConnectivity server (checks w) = inr r ->
  exists w', connect server (S n) w = connect server n w' /\
             config w' = config w /\
             multiDBSupport w' = multiDBSupport w /\
             checks w' = S (checks w) /\
             trace w' =
               (trace w ++
                [NewDriver {| driver_url := url c; driver_auth := auth c;
                              driver_options := options c |};
                 VerifyConnectivity;
                 ConsoleWarn "Neo4j driver instantiation failed. Retry in 5 seconds...";
                 SetTimeout 5000])%list.
Proof.
  intros Hc Hv.
  eexists. split.
  - cbn [connect]. async_unfold. rewrite Hc. async_unfold. rewrite Hv. reflexivity.
  - cbn [config driver multiDBSupport trace checks].
    repeat split; [congruence |]. rewrite <- !app_assoc. reflexivity.
Qed.

Lemma connect_give_up (w : world) (c : Config) (r : reason) :
  config w = Some c ->
  verifyConnectivity server (checks w) = inr r ->
  exists w', connect server 0 w = (Rejected r, w') /\
             multiDBSupport w' = multiDBSupport w /\
             config w' = config w.
Proof.
  intros Hc Hv.
  cbn [connect]; async_unfold; rewrite Hc; async_unfold; rewrite Hv.
  eexists; (split; [reflexivity | split; [reflexivity | simpl; congruence]]).
Qed.

(** [connect(n)] makes up to [n + 1] checks: after [N] failed ones and a
    successful one it resolves exactly when [N <= n]. *)
Lemma connect_resolves (n N : nat) (w : world) (c : Config) (info : ServerInfo) :
  config w = Some c ->
  (forall k, (k < N)%nat -> exists r, verifyConnectivity server (checks w + k) = inr r) ->
  verifyConnectivity server (checks w + N) = inl info ->
  (N <= n)%nat ->
  exists w', connect server n w = (Resolved info, w') /\
             multiDBSupport w' = multiDBSupport w /\ config w' = config w.
Proof.
  revert N w. induction n as [| n IH]; intros N w Hc Hfail Hok Hle.
  - assert (N = 0)%nat as -> by lia. rewrite Nat.add_0_r in Hok.
    eapply connect_success; eassumption.
  - destruct N as [| N].
    + rewrite Nat.add_0_r in Hok. eapply connect_success; eassumption.
    + destruct (Hfail 0%nat) as [r Hr]; [lia |]. rewrite Nat.add_0_r in Hr.
      destruct (connect_retry n w c r Hc Hr) as (w1 & Heq & Hc1 & Hm1 & Hk1 & _).
      rewrite Heq.
      destruct (IH N w1) as (w' & Hw' & Hm' & Hc').
      * congruence.
      * intros k Hk. rewrite Hk1. replace (S (checks w) + k)%nat with (checks w + S k)%nat by lia.
        apply Hfail. lia.
      * rewrite Hk1. replace (S (checks w) + N)%nat with (checks w + S N)%nat by lia.
        assumption.
      * lia.
      * exists w'. repeat split; congruence.
Qed.

Lemma connect_rejects (n : nat) (w : world) (c : Config) (r : reason) :
  config w = Some c ->
  (forall k, (k < n)%nat -> exists r', verifyConnectivity server (checks w + k) = inr r') ->
  verifyConnectivity server (checks w + n) = inr r ->
  exists w', connect server n w = (Rejected r, w') /\
             multiDBSupport w' = multiDBSupport w /\ config w' = config w.
Proof.
  revert w. induction n as [| n IH]; intros w Hc Hfail Hlast.
  - rewrite Nat.add_0_r in Hlast. eapply connect_give_up; eassumption.
  - destruct (Hfail 0%nat) as [r0 Hr0]; [lia |]. rewrite Nat.add_0_r in Hr0.
    destruct (connect_retry n w c r0 Hc Hr0) as (w1 & Heq & Hc1 & Hm1 & Hk1 & _).
    rewrite Heq.
    destruct (IH w1) as (w' & Hw' & Hm' & Hc').
    + congruence.
    + intros k Hk. rewrite Hk1. replace (S (checks w) + k)%nat with (checks w + S k)%nat by lia.
      apply Hfail. lia.
    + rewrite Hk1. replace (S (checks w) + n)%nat with (checks w + S n)%nat by lia.
      assumption.
    + exists w'. repeat split; congruence.
Qed.

(** [init] after the connection: the version decides. *)
Lemma init_after_connect url user password database options (w w1 : world)
  (c : completion ServerInfo) :
  connect server 5
    {| config := Some {| url := url; auth := (user, password);
                         database := default "neo4j" database;
                         options := assign_options (default [] options) |};
       driver := driver w; multiDBSupport := multiDBSupport w;
       trace := trace w; checks := checks w |} = (c, w1) ->
  match c with
  | Rejected r =>
      init server url user password database options w = (Rejected r, w1)
  | Resolved info =>
      match exec_version (version info) with
      | None =>
          exists w',
            init server url user password database options w
            = (Rejected (TypeErrorOf "matches"), w') /\
            multiDBSupport w' = multiDBSupport w1 /\
            trace w' = (trace w1 ++ [ConsoleLog info])%list
      | Some major =>
          exists w',
            init server url user password database options w = (Resolved info, w') /\
            multiDBSupport w' =
              (if to_number major >? 3 then true else multiDBSupport w1)
      end
  end.
Proof.
  intros Hconn. unfold init, check_version.
  unfold then_, set_config, try_catch. cbn beta iota. rewrite Hconn.
  destruct c as [info | r]; [| reflexivity].
  destruct (exec_version (version info)) as [major |].
  - destruct (to_number major >? 3); async_unfold; eexists; split; reflexivity.
  - async_unfold. eexists. repeat split; reflexivity.
Qed.

(** The retry budget of [init]: with [N] refused checks before an accepted
    one whose version matches the pattern, [init] resolves when [N <= 5]
    and is rejected with the reason of the sixth check when all six are
    refused. *)
Lemma init_resolves url user password database options (w : world)
  (N : nat) (info : ServerInfo) (major : string) :
  (forall k, (k < N)%nat -> exists r, verifyConnectivity server (checks w + k) = inr r) ->
  verifyConnectivity server (checks w + N) = inl info ->
  exec_version (version info) = Some major ->
  (N <= 5)%nat ->
  exists w', init server url user password database options w = (Resolved info, w') /\
             multiDBSupport w' = (if to_number major >? 3 then true else multiDBSupport w).
Proof.
  intros Hfail Hok Hver Hle.
  pose (cfg := {| url := url; auth := (user, password);
                  database := default "neo4j" database;
                  options := assign_options (default [] options) |}).
  pose (w0 := {| config := Some cfg; driver := driver w; multiDBSupport := multiDBSupport w;
                 trace := trace w; checks := checks w |}).
  destruct (connect_resolves 5 N w0 cfg info) as (w1 & Hconn & Hm & _);
    [reflexivity | exact Hfail | exact Hok | exact Hle |].
  pose proof (init_after_connect url user password database options w w1 _ Hconn) as H.
  cbn beta iota in H. rewrite Hver in H. destruct H as (w' & Hw' & Hm').
  exists w'. split; [exact Hw' |]. rewrite Hm'. rewrite Hm. reflexivity.
Qed.

Lemma init_rejects_connect url user password database options (w : world) (r : reason) :
  (forall k, (k < 5)%nat -> exists r', verifyConnectivity server (checks w + k) = inr r') ->
  verifyConnectivity server (checks w + 5) = inr r ->
  exists w', init server url user password database options w = (Rejected r, w') /\
             multiDBSupport w' = multiDBSupport w.
Proof.
  intros Hfail Hlast.
  pose (cfg := {| url := url; auth := (user, password);
                  database := default "neo4j" database;
                  options := assign_options (default [] options) |}).
  pose (w0 := {| config := Some cfg; driver := driver w; multiDBSupport := multiDBSupport w;
                 trace := trace w; checks := checks w |}).
  destruct (connect_rejects 5 w0 cfg r) as (w1 & Hconn & Hm & _);
    [reflexivity | exact Hfail | exact Hlast |].
  pose proof (init_after_connect url user password database options w w1 _ Hconn) as H.
  cbn beta iota in H. exists w1. split; [exact H | exact Hm].
Qed.

Lemma init_rejects_version url user password database options (w : world)
  (N : nat) (info : ServerInfo) :
  (forall k, (k < N)%nat -> exists r, verifyConnectivity server (checks w + k) = inr r) ->
  verifyConnectivity server (checks w + N) = inl info ->
  (N <= 5)%nat ->
  exec_version (version info) = None ->
  exists w', init server url user password database options w
             = (Rejected (TypeErrorOf "matches"), w') /\
             multiDBSupport w' = multiDBSupport w.
Proof.
  intros Hfail Hok Hle Hver.
  pose (cfg := {| url := url; auth := (user, password);
                  database := default "neo4j" database;
                  options := assign_options (default [] options) |}).
  pose (w0 := {| config := Some cfg; driver := driver w; multiDBSupport := multiDBSupport w;
                 trace := trace w; checks := checks w |}).
  destruct (connect_resolves 5 N w0 cfg info) as (w1 & Hconn & Hm & _);
    [reflexivity | exact Hfail | exact Hok | exact Hle |].
  pose proof (init_after_connect url user password database options w w1 _ Hconn) as H.
  cbn beta iota in H. rewrite Hver in H. destruct H as (w' & Hw' & Hm' & _).
  exists w'. split; [exact Hw' |]. rewrite Hm'. exact Hm.
Qed.

(** *** The version pattern *)

Lemma greedy_stops cls (k : matcher) (s : string) : stops cls s = true -> greedy cls k s = None.
Proof.
  destruct s as [| c s]; simpl; [reflexivity |].
  destruct (in_class cls c); [discriminate | reflexivity].
Qed.

(** A run of characters of the class that ends where the class ends is
    taken whole when the rest of the pattern matches behind it. *)
Lemma greedy_run cls (k : matcher) (run rest : string) (pieces : list string) :
  run <> EmptyString -> all_in cls run = true -> stops cls rest = true ->
  k rest = Some pieces ->
  greedy cls k (run ++ rest)%string = Some (run, pieces).
Proof.
  intros Hne Hall Hstop Hk. induction run as [| c run IH]; [congruence |].
  cbn [all_in] in Hall. apply andb_true_iff in Hall as [Hc Hall].
  change (String c run ++ rest)%string with (String c (run ++ rest)%string).
  cbn [greedy]. rewrite Hc. destruct run as [| c' run].
  - change ("" ++ rest)%string with rest.
    rewrite (greedy_stops cls k rest Hstop), Hk. reflexivity.
  - rewrite IH; [reflexivity | discriminate | exact Hall].
Qed.

Lemma greedy_some cls (run rest : string) :
  run <> EmptyString -> all_in cls run = true ->
  exists m, greedy cls (fun _ => Some []) (run ++ rest)%string = Some (m, []).
Proof.
  intros Hne Hall. destruct run as [| c run]; [congruence |].
  cbn [all_in] in Hall. apply andb_true_iff in Hall as [Hc _].
  change (String c run ++ rest)%string with (String c (run ++ rest)%string).
  cbn [greedy]. rewrite Hc.
  destruct (greedy cls (fun _ => Some []) (run ++ rest)%string) as [[m pieces] |] eqn:E.
  - assert (pieces = []) as ->.
    { clear - E. revert m E. generalize (run ++ rest)%string as s.
      induction s as [| c s IH]; intros m; cbn [greedy]; [discriminate |].
      destruct (in_class cls c); [| discriminate].
      destruct (greedy cls (fun _ => Some []) s) as [[m' p'] |] eqn:E'.
      - intros [= <- <-]. eapply IH. reflexivity.
      - intros [= <- <-]. reflexivity. }
    eauto.
  - eauto.
Qed.

(** Every version of the form [Neo4j/<major>.<minor>.<patch>], whatever
    follows the patch number, matches the pattern, with [<major>] as the
    first group. *)
Lemma exec_version_well_formed (major minor patch rest : string) :
  major <> EmptyString -> all_in Digit major = true ->
  minor <> EmptyString -> all_in Digit minor = true ->
  patch <> EmptyString -> all_in Digit patch = true ->
  exec_version ("Neo4j/" ++ major ++ "." ++ minor ++ "." ++ patch ++ rest)%string
  = Some major.
Proof.
  intros Hmaj1 Hmaj2 Hmin1 Hmin2 Hpat1 Hpat2.
  destruct (greedy_some Digit patch rest Hpat1 Hpat2) as [m Hm].
  assert (H3 : one_or_more Digit (fun _ => Some []) (patch ++ rest)%string = Some [m]).
  { unfold one_or_more. rewrite Hm. reflexivity. }
  assert (H2 : one_or_more Digit (once AnyChar (one_or_more Digit (fun _ => Some [])))
                 (minor ++ String "." (patch ++ rest))%string
               = Some [minor; "."; m]).
  { unfold one_or_more at 1.
    rewrite (greedy_run Digit _ minor _ ["."; m]); [reflexivity | assumption .. | | ].
    - reflexivity.
    - cbn [once in_class]. rewrite H3. reflexivity. }
  assert (H1 : one_or_more Digit
                 (once AnyChar
                    (one_or_more Digit (once AnyChar (one_or_more Digit (fun _ => Some [])))))
                 (major ++ String "." (minor ++ String "." (patch ++ rest)))%string
               = Some [major; "."; minor; "."; m]).
  { unfold one_or_more at 1.
    rewrite (greedy_run Digit _ major _ ["."; minor; "."; m]); [reflexivity | assumption .. | | ].
    - reflexivity.
    - cbn [once in_class]. rewrite H2. reflexivity. }
  unfold exec_version, match_prefix, version_pattern.
  cbn [fold_right item_matcher fst snd].
  change ("Neo4j/" ++ major ++ "." ++ minor ++ "." ++ patch ++ rest)%string
    with (String "N" (String "e" (String "o" (String "4" (String "j" (String "/"
           (major ++ String "." (minor ++ String "." (patch ++ rest)))))))))%string.
  unfold once at 1 2 3 4 5 6. cbn [in_class]. rewrite H1. reflexivity.
Qed.

(** The dots of the pattern are not escaped and the pattern is open at
    the end: other strings match as well. *)
Example exec_version_loose :
  exec_version "Neo4j/4.4.3" = Some "4" /\
  exec_version "Neo4j/10.20.30-enterprise" = Some "10" /\
  exec_version "Neo4j/3x5y1" = Some "3" /\
  exec_version "Neo4j/12345" = Some "1" /\
  exec_version "Neo4j/4.4" = None /\
  exec_version "neo4j/4.4.3" = None /\
  exec_version "" = None.
Proof. repeat split. Qed.

(** When a connectivity check within the budget succeeds and the regular
    expression of the code finds no match in the version the server
    reports, [init] is rejected: the [null] of [exec] makes [matches[1]]
    throw, the [catch] turns the error into the rejection, and the flag
    for several databases keeps its value. [init] never resolves with
    such a version. *)
Lemma init_version_unmatched url user password database options (w : world)
  (info : ServerInfo) :
  (forall N : nat,
     (forall k, (k < N)%nat -> exists r, verifyConnectivity server (checks w + k) = inr r) ->
     verifyConnectivity server (checks w + N) = inl info ->
     (N <= 5)%nat ->
     exec_version (version info) = None ->
     exists w', init server url user password database options w
                = (Rejected (TypeErrorOf "matches"), w') /\
                multiDBSupport w' = multiDBSupport w) /\
  (forall w', init server url user password database options w = (Resolved info, w') ->
              exec_version (version info) <> None).
Proof.
  split.
  - intros N Hfail Hok Hle Hver. eapply init_rejects_version; eassumption.
  - intros w' Hinit Hver.
    destruct (connect server 5
                {| config := Some {| url := url; auth := (user, password);
                                     database := default "neo4j" database;
                                     options := assign_options (default [] options) |};
                   driver := driver w; multiDBSupport := multiDBSupport w;
                   trace := trace w; checks := checks w |}) as [c w1] eqn:Hconn.
    pose proof (init_after_connect url user password database options w w1 c Hconn) as H.
    destruct c as [info0 | r].
    + destruct (exec_version (version info0)) as [major |] eqn:Hv0.
      * destruct H as (w2 & Hw2 & _). rewrite Hw2 in Hinit.
        injection Hinit as -> _. congruence.
      * destruct H as (w2 & Hw2 & _). rewrite Hw2 in Hinit. discriminate.
    + rewrite H in Hinit. discriminate.
Qed.

End bootstrap_properties.

Section bootstrap_runs.
Import Values Normalizer Runtime Bootstrap.

Lemma refusing_first_refuses (n k : nat) (info : ServerInfo) :
  (k < n)%nat ->
  verifyConnectivity (refusing_first n info) k = inr (Neo4jError "ServiceUnavailable").
Proof.
  intros H. simpl. destruct (Nat.ltb_spec k n); [reflexivity | lia].
Qed.

Lemma refusing_first_accepts (n k : nat) (info : ServerInfo) :
  (n <= k)%nat -> verifyConnectivity (refusing_first n info) k = inl info.
Proof.
  intros H. simpl. destruct (Nat.ltb_spec k n); [lia | reflexivity].
Qed.

(** The budget of [init] is six checks: against a server that refuses the
    first [N] checks and whose version matches, [init] resolves exactly
    when [N <= 5]. *)
Lemma init_budget_is_six url user password database options (N : nat)
  (info : ServerInfo) (major : string) :
  exec_version (version info) = Some major ->
  ((N <= 5)%nat ->
   fst (init (refusing_first N info) url user password database options initial)
   = Resolved info) /\
  ((5 < N)%nat ->
   fst (init (refusing_first N info) url user password database options initial)
   = Rejected (Neo4jError "ServiceUnavailable")).
Proof.
  intros Hver. split; intros HN.
  - destruct (init_resolves (refusing_first N info) url user password database options
                initial N info major) as (w' & Hw' & _).
    + intros k Hk. eexists. apply refusing_first_refuses. exact Hk.
    + apply refusing_first_accepts. cbn [checks initial]. lia.
    + exact Hver.
    + exact HN.
    + rewrite Hw'. reflexivity.
  - destruct (init_rejects_connect (refusing_first N info) url user password database options
                initial (Neo4jError "ServiceUnavailable")) as (w' & Hw' & _).
    + intros k Hk. eexists. apply refusing_first_refuses. cbn [checks initial]. lia.
    + apply refusing_first_refuses. cbn [checks initial]. lia.
    + rewrite Hw'. reflexivity.
Qed.

(** C1 on the code: after five refused connectivity checks [init] makes a
    sixth one, five seconds after the fifth, and resolves with its answer,
    where a budget of five trials would have been used up. *)
Theorem init_resolves_on_sixth_check :
  let info := {| address := "localhost:7687"; version := "Neo4j/4.4.3" |} in
  let run := init (refusing_first 5 info) "neo4j://localhost" "neo4j" "secret" None None
               initial in
  fst run = Resolved info /\
  checks_in (trace (snd run)) = 6%nat /\
  timers_in (trace (snd run)) = [5000; 5000; 5000; 5000; 5000] /\
  multiDBSupport (snd run) = true.
Proof.
  vm_compute. repeat split.
Qed.

(** C10 on the code: the two dots of the regular expression are not
    escaped and nothing anchors its end, so a version that is not of the
    form [Neo4j/<major>.<minor>.<patch>] can match it. [Neo4j/123.45] has
    a single dot and two numbers; the expression reads it as [1], any
    character, [3], any character, [45]: [init] is not rejected but
    resolves, takes [1] for the major version and leaves the flag for
    several databases [false], where the major version [123] is above 3. *)
Theorem init_resolves_on_malformed_version :
  let info := {| address := "localhost:7687"; version := "Neo4j/123.45" |} in
  let run := init (refusing_first 0 info) "neo4j://localhost" "neo4j" "secret" None None
               initial in
  length (List.filter (Ascii.eqb ".") (list_ascii_of_string (version info))) = 1%nat /\
  exec_version (version info) = Some "1" /\
  fst run = Resolved info /\
  multiDBSupport (snd run) = false /\
  hooks_in (trace (snd run)) = 1%nat.
Proof.
  vm_compute. repeat split.
Qed.

Lemma init_version_unmatched_witness :
  exists w',
    init (refusing_first 2 {| address := "localhost:7687"; version := "Neo4j/4.4" |})
      "neo4j://localhost" "neo4j" "secret" None None initial
    = (Rejected (TypeErrorOf "matches"), w') /\
    multiDBSupport w' = multiDBSupport initial.
Proof.
  apply (proj1 (init_version_unmatched
                  (refusing_first 2 {| address := "localhost:7687"; version := "Neo4j/4.4" |})
                  "neo4j://localhost" "neo4j" "secret" None None initial
                  {| address := "localhost:7687"; version := "Neo4j/4.4" |}) 2%nat).
  - intros k Hk. eexists. apply refusing_first_refuses. exact Hk.
  - reflexivity.
  - lia.
  - reflexivity.
Defined.

End bootstrap_runs.

(** ** The transaction helpers *)

Section transaction_properties.
Import Values Normalizer Runtime Transactions.
Variable server : behaviour.

Lemma after_nil (w : world) : after w [] = w.
Proof.
  destruct w. unfold after. simpl. rewrite app_nil_r. reflexivity.
Qed.

Lemma after_after (w : world) (es es' : list event) :
  after (after w es) es' = after w (es ++ es').
Proof.
  unfold after. simpl. rewrite app_assoc. reflexivity.
Qed.

Lemma emit_after (e : event) (w : world) : emit e w = (Resolved tt, after w [e]).
Proof. reflexivity. Qed.

(** The loop over the statements: it runs them in order up to the first
    one the server refuses. *)
Lemma run_statements_spec (statements : list Statement) (i : nat) (results : list value)
  (w : world) :
  run_statements server i statements results w =
  match answers server i statements with
  | inl rss =>
      (Resolved (results ++ map (fun rs => extractRecords (DRecords rs)) rss),
       after w (runs statements))
  | inr (j, r) => (Rejected r, after w (runs (firstn (S j) statements)))
  end.
Proof.
  revert i results w. induction statements as [| s rest IH]; intros i results w.
  - simpl. unfold resolve. rewrite app_nil_r, after_nil. reflexivity.
  - cbn [run_statements answers]. unfold then_ at 1. unfold run.
    unfold then_ at 1. rewrite emit_after.
    destruct (tx_run server i (statement s) (parameters s)) as [records | r].
    + cbn [settle]. unfold resolve at 1. rewrite IH.
      destruct (answers server (S i) rest) as [rss | [j r]].
      * rewrite after_after. cbn [map]. rewrite <- app_assoc. reflexivity.
      * rewrite after_after. reflexivity.
    + cbn [settle]. unfold reject. reflexivity.
Qed.

Ltac tx_unfold :=
  repeat (progress
            (unfold then_, try_catch, try_finally, emit, settle, settle_unit, resolve,
               reject, transaction;
             cbn [config driver multiDBSupport trace checks fst snd])).

Lemma acquire_session_ready (mode : option access_mode) (w : world) :
  ready w ->
  acquire_session mode w = (Resolved tt, after w [OpenSession (session_database w) mode]).
Proof.
  intros [[d Hd] Hc]. unfold acquire_session, session_database. rewrite Hd.
  destruct (multiDBSupport w).
  - destruct Hc as [c Hc]; [reflexivity |]. rewrite Hc. reflexivity.
  - reflexivity.
Qed.

Lemma acquire_session_not_ready (mode : option access_mode) (w : world) :
  ~ ready w -> exists r, acquire_session mode w = (Rejected r, w).
Proof.
  intros Hn. unfold acquire_session.
  destruct (driver w) as [d |] eqn:Hd.
  - destruct (multiDBSupport w) eqn:Hm.
    + destruct (config w) as [c |] eqn:Hc.
      * exfalso. apply Hn. split; [eauto |]. intros _. eauto.
      * eexists. reflexivity.
    + exfalso. apply Hn. split; [eauto |]. intros H. congruence.
  - eexists. reflexivity.
Qed.

(** What a managed transaction helper does in a world that is ready. *)
Lemma readTransaction_spec (query : string) (params : option value) (w : world) :
  ready w ->
  readTransaction server query params w =
  (match managed server READ query (default (VObj []) params) with
   | inl records => Resolved (extractRecords (DRecords records))
   | inr r => Rejected r
   end,
   after w [OpenSession (session_database w) (Some READ);
            ManagedTransaction READ query (default (VObj []) params);
            CloseSession]).
Proof.
  intros Hr. unfold readTransaction. unfold then_ at 1.
  rewrite (acquire_session_ready _ _ Hr).
  destruct (managed server READ query (default (VObj []) params)) eqn:Hm;
    tx_unfold; rewrite Hm; unfold after; cbn [config driver multiDBSupport trace checks];
    rewrite <- !app_assoc; reflexivity.
Qed.

Lemma writeTransaction_spec (query : string) (params : option value) (w : world) :
  ready w ->
  writeTransaction server query params w =
  (match managed server WRITE query (default (VObj []) params) with
   | inl records => Resolved (extractRecords (DRecords records))
   | inr r => Rejected r
   end,
   after w [OpenSession (session_database w) None;
            ManagedTransaction WRITE query (default (VObj []) params);
            CloseSession]).
Proof.
  intros Hr. unfold writeTransaction. unfold then_ at 1.
  rewrite (acquire_session_ready _ _ Hr).
  destruct (managed server WRITE query (default (VObj []) params)) eqn:Hm;
    tx_unfold; rewrite Hm; unfold after; cbn [config driver multiDBSupport trace checks];
    rewrite <- !app_assoc; reflexivity.
Qed.

(** What [multipleStatements] does in a world that is ready. *)
Lemma multipleStatements_spec (statements : list Statement) (w : world) :
  ready w ->
  multipleStatements server statements w =
  match answers server 0 statements with
  | inl rss =>
      match tx_commit server with
      | None =>
          (Resolved (map (fun rs => extractRecords (DRecords rs)) rss),
           after w ([OpenSession (session_database w) None; BeginTransaction]
                    ++ runs statements ++ [Commit; CloseSession]))
      | Some r =>
          (Rejected (after_rollback server r),
           after w ([OpenSession (session_database w) None; BeginTransaction]
                    ++ runs statements ++ [Commit; Rollback; CloseSession]))
      end
  | inr (j, r) =>
      (Rejected (after_rollback server r),
       after w ([OpenSession (session_database w) None; BeginTransaction]
                ++ runs (firstn (S j) statements) ++ [Rollback; CloseSession]))
  end.
Proof.
  intros Hr. unfold multipleStatements. unfold then_ at 1.
  rewrite (acquire_session_ready _ _ Hr).
  unfold then_ at 1. rewrite emit_after, after_after.
  unfold try_finally, try_catch. unfold then_ at 1.
  rewrite run_statements_spec. unfold after_rollback.
  destruct (answers server 0 statements) as [rss | [j r]].
  - unfold then_ at 1. rewrite emit_after, after_after.
    unfold then_ at 1.
    destruct (tx_commit server) as [r |]; cbn [settle_unit].
    + unfold reject at 1. unfold then_ at 1. rewrite emit_after, after_after.
      unfold then_ at 1.
      destruct (tx_rollback server) as [r' |]; cbn [settle_unit];
        unfold reject, resolve; rewrite emit_after, !after_after;
        cbn [app]; rewrite <- ?app_assoc; reflexivity.
    + unfold resolve. rewrite emit_after, !after_after.
      cbn [app]; rewrite <- ?app_assoc; reflexivity.
  - unfold then_ at 1. rewrite emit_after, after_after.
    unfold then_ at 1.
    destruct (tx_rollback server) as [r' |]; cbn [settle_unit];
      unfold reject, resolve; rewrite emit_after, !after_after;
      cbn [app]; rewrite <- ?app_assoc; reflexivity.
Qed.

(** What [answers] says, in terms of the single statements. *)
Lemma answers_inl (statements : list Statement) (i : nat) (rss : list (list record)) :
  answers server i statements = inl rss <->
  (length rss = length statements /\
   forall j s, nth_error statements j = Some s ->
     exists rs, nth_error rss j = Some rs /\
                tx_run server (i + j) (statement s) (parameters s) = inl rs).
Proof.
  revert i rss. induction statements as [| s rest IH]; intros i rss; cbn [answers].
  - split.
    + intros [= <-]. split; [reflexivity |]. intros [| j] s' H; discriminate.
    + intros [Hlen _]. destruct rss; [reflexivity | discriminate].
  - destruct (tx_run server i (statement s) (parameters s)) as [rs | r] eqn:Hrun.
    + destruct (answers server (S i) rest) as [others | [j r]] eqn:Hrest.
      * split.
        -- intros [= <-]. apply IH in Hrest as [Hlen Hall].
           split; [simpl; congruence |].
           intros [| j] s' Hs'; simpl in Hs'.
           ++ injection Hs' as <-. exists rs. rewrite Nat.add_0_r. split; [reflexivity | exact Hrun].
           ++ destruct (Hall j s' Hs') as (rs' & Hn & Hr).
              exists rs'. split; [exact Hn |].
              replace (i + S j)%nat with (S i + j)%nat by lia. exact Hr.
        -- intros [Hlen Hall]. destruct rss as [| rs0 rss]; [discriminate |].
           destruct (Hall 0%nat s eq_refl) as (rs' & Hn & Hr).
           rewrite Nat.add_0_r, Hrun in Hr. injection Hr as <-.
           simpl in Hn. injection Hn as ->.
           f_equal. f_equal. symmetry.
           assert (H : answers server (S i) rest = inl rss).
           { apply IH. split; [simpl in Hlen; lia |].
             intros j s' Hs'. destruct (Hall (S j) s' Hs') as (rs'' & Hn' & Hr').
             exists rs''. split; [exact Hn' |].
             replace (S i + j)%nat with (i + S j)%nat by lia. exact Hr'. }
           congruence.
      * split; [discriminate |].
        intros [Hlen Hall]. exfalso.
        destruct rss as [| rs0 rss]; [discriminate |].
        assert (H : answers server (S i) rest = inl rss).
        { apply IH. split; [simpl in Hlen; lia |].
          intros j' s' Hs'. destruct (Hall (S j') s' Hs') as (rs'' & Hn' & Hr').
          exists rs''. split; [exact Hn' |].
          replace (S i + j')%nat with (i + S j')%nat by lia. exact Hr'. }
        congruence.
    + split; [discriminate |].
      intros [_ Hall]. destruct (Hall 0%nat s eq_refl) as (rs' & _ & Hr).
      rewrite Nat.add_0_r in Hr. congruence.
Qed.

Lemma answers_inr (statements : list Statement) (i j : nat) (r : reason) :
  answers server i statements = inr (j, r) ->
  exists s, nth_error statements j = Some s /\
            tx_run server (i + j) (statement s) (parameters s) = inr r.
Proof.
  revert i j. induction statements as [| s rest IH]; intros i j; cbn [answers].
  - discriminate.
  - destruct (tx_run server i (statement s) (parameters s)) as [rs | r0] eqn:Hrun.
    + destruct (answers server (S i) rest) as [others | [j' r']] eqn:Hrest; [discriminate |].
      intros [= <- <-]. destruct (IH _ _ Hrest) as (s' & Hs' & Hr').
      exists s'. split; [exact Hs' |].
      replace (i + S j')%nat with (S i + j')%nat by lia. exact Hr'.
    + intros [= <- <-]. exists s. rewrite Nat.add_0_r. split; [reflexivity | exact Hrun].
Qed.

Lemma every_statement_succeeds_answers statements rss :
  every_statement_succeeds server statements rss <-> answers server 0 statements = inl rss.
Proof.
  unfold every_statement_succeeds. rewrite answers_inl. reflexivity.
Qed.

Lemma some_statement_fails_answers statements :
  some_statement_fails server statements <->
  exists j r, answers server 0 statements = inr (j, r).
Proof.
  split.
  - intros (j & s & r & Hs & Hr).
    destruct (answers server 0 statements) as [rss | [j' r']] eqn:Ha.
    + apply answers_inl in Ha as [_ Hall].
      destruct (Hall j s Hs) as (rs & _ & Hrs). simpl in Hrs. congruence.
    + eauto.
  - intros (j & r & Ha). apply answers_inr in Ha as (s & Hs & Hr).
    exists j, s, r. split; assumption.
Qed.

Lemma runs_only_run (statements : list Statement) (e : event) :
  In e (runs statements) -> exists q p, e = Run q p.
Proof.
  unfold runs. rewrite in_map_iff. intros (s & <- & _). eauto.
Qed.

(** The first statement the server refuses decides the answer. *)
Lemma answers_first_failure (statements : list Statement) (i j : nat) (s : Statement)
  (r : reason) :
  (forall k s', (k < j)%nat -> nth_error statements k = Some s' ->
     exists rs, tx_run server (i + k) (statement s') (parameters s') = inl rs) ->
  nth_error statements j = Some s ->
  tx_run server (i + j) (statement s) (parameters s) = inr r ->
  answers server i statements = inr (j, r).
Proof.
  revert i j. induction statements as [| s0 rest IH]; intros i j Hbefore Hj Hr.
  - destruct j; discriminate.
  - destruct j as [| j].
    + injection Hj as ->. rewrite Nat.add_0_r in Hr. cbn [answers]. rewrite Hr. reflexivity.
    + cbn [nth_error] in Hj. cbn [answers].
      destruct (Hbefore 0%nat s0) as [rs Hrs]; [lia | reflexivity |].
      rewrite Nat.add_0_r in Hrs. rewrite Hrs.
      rewrite (IH (S i) j).
      * reflexivity.
      * intros k s' Hk Hs'. replace (S i + k)%nat with (i + S k)%nat by lia.
        apply Hbefore; [lia | exact Hs'].
      * exact Hj.
      * replace (S i + j)%nat with (i + S j)%nat by lia. exact Hr.
Qed.

(** C2. In a world where the driver is initialised, [multipleStatements]
    opens one session and one explicit transaction and runs the statements
    in their order. When the server accepts every statement, all of them
    are run and then the commit: the commit succeeding, the call resolves
    with the extracted records of every statement in the order of the
    statements; the commit failing, the transaction is rolled back and
    the call is rejected. When the server refuses a statement, the
    statements up to the first refused one are run and no other, nothing
    is committed, the transaction is rolled back and the call is
    rejected, with no result at all. So the commit is there exactly when
    every statement was accepted. *)
Theorem multipleStatements_atomic (statements : list Statement) (w : world) :
  ready w ->
  exists new : list event,
    trace (snd (multipleStatements server statements w)) = trace w ++ new /\
    (forall rss,
       every_statement_succeeds server statements rss ->
       (tx_commit server = None ->
        new = [OpenSession (session_database w) None; BeginTransaction]
              ++ runs statements ++ [Commit; CloseSession] /\
        fst (multipleStatements server statements w)
        = Resolved (map (fun rs => extractRecords (DRecords rs)) rss)) /\
       (forall r,
          tx_commit server = Some r ->
          new = [OpenSession (session_database w) None; BeginTransaction]
                ++ runs statements ++ [Commit; Rollback; CloseSession] /\
          fst (multipleStatements server statements w)
          = Rejected (after_rollback server r))) /\
    (forall j s r,
       (forall k s', (k < j)%nat -> nth_error statements k = Some s' ->
          exists rs, tx_run server k (statement s') (parameters s') = inl rs) ->
       nth_error statements j = Some s ->
       tx_run server j (statement s) (parameters s) = inr r ->
       new = [OpenSession (session_database w) None; BeginTransaction]
             ++ runs (firstn (S j) statements) ++ [Rollback; CloseSession] /\
       fst (multipleStatements server statements w)
       = Rejected (after_rollback server r)) /\
    (exists k tail,
       new = [OpenSession (session_database w) None; BeginTransaction]
             ++ runs (firstn k statements) ++ tail /\
       (tail = [Commit; CloseSession] \/ tail = [Commit; Rollback; CloseSession] \/
        tail = [Rollback; CloseSession])) /\
    (In Commit new <-> exists rss, every_statement_succeeds server statements rss) /\
    (forall rss,
       every_statement_succeeds server statements rss -> tx_commit server = None ->
       fst (multipleStatements server statements w)
       = Resolved (map (fun rs => extractRecords (DRecords rs)) rss)) /\
    (some_statement_fails server statements \/ (exists r, tx_commit server = Some r) ->
     In Rollback new /\
     exists r, fst (multipleStatements server statements w) = Rejected r).
Proof.
  intros Hr. rewrite (multipleStatements_spec statements w Hr).
  assert (Hfirst : forall j s r,
             (forall k s', (k < j)%nat -> nth_error statements k = Some s' ->
                exists rs, tx_run server k (statement s') (parameters s') = inl rs) ->
             nth_error statements j = Some s ->
             tx_run server j (statement s) (parameters s) = inr r ->
             answers server 0 statements = inr (j, r)).
  { intros j s r Hbefore Hj Hfail. apply (answers_first_failure statements 0 j s r).
    - intros k s' Hk Hs'. apply Hbefore; assumption.
    - exact Hj.
    - exact Hfail. }
  destruct (answers server 0 statements) as [rss | [j r]] eqn:Ha.
  - assert (Hno : ~ some_statement_fails server statements).
    { rewrite some_statement_fails_answers. intros (j & r & H). congruence. }
    assert (Hsame : forall rss', every_statement_succeeds server statements rss' -> rss' = rss).
    { intros rss' H. apply every_statement_succeeds_answers in H. congruence. }
    destruct (tx_commit server) as [r |] eqn:Hc.
    + eexists. split; [reflexivity |]. split; [| split; [| split; [| split; [| split]]]].
      * intros rss' Hrss'. split; [discriminate |].
        intros r' [= <-]. split; reflexivity.
      * intros j s r' Hbefore Hj Hfail. specialize (Hfirst j s r' Hbefore Hj Hfail).
        discriminate.
      * exists (length statements), [Commit; Rollback; CloseSession].
        rewrite firstn_all. split; [reflexivity | tauto].
      * split; [intros _; exists rss; apply every_statement_succeeds_answers; exact Ha |].
        intros _. cbn [app]. right. right. apply in_or_app. right. left. reflexivity.
      * intros rss' _ H. discriminate.
      * intros _. split; [| eexists; reflexivity].
        cbn [app]. right. right. apply in_or_app. right. right. left. reflexivity.
    + eexists. split; [reflexivity |]. split; [| split; [| split; [| split; [| split]]]].
      * intros rss' Hrss'. rewrite (Hsame rss' Hrss'). split; [| discriminate].
        intros _. split; reflexivity.
      * intros j s r' Hbefore Hj Hfail. specialize (Hfirst j s r' Hbefore Hj Hfail).
        discriminate.
      * exists (length statements), [Commit; CloseSession].
        rewrite firstn_all. split; [reflexivity | tauto].
      * split; [intros _; exists rss; apply every_statement_succeeds_answers; exact Ha |].
        intros _. cbn [app]. right. right. apply in_or_app. right. left. reflexivity.
      * intros rss' Hrss' _. rewrite (Hsame rss' Hrss'). reflexivity.
      * intros [Hf | [r Hf]]; [contradiction | discriminate].
  - assert (Hnone : forall rss, ~ every_statement_succeeds server statements rss).
    { intros rss Hrss. apply every_statement_succeeds_answers in Hrss. congruence. }
    eexists. split; [reflexivity |]. split; [| split; [| split; [| split; [| split]]]].
    + intros rss Hrss. destruct (Hnone rss Hrss).
    + intros j' s r' Hbefore Hj Hfail. specialize (Hfirst j' s r' Hbefore Hj Hfail).
      injection Hfirst as <- <-. split; reflexivity.
    + exists (S j), [Rollback; CloseSession]. split; [reflexivity | tauto].
    + split.
      * cbn [app]. intros [H | [H | H]]; try discriminate.
        apply in_app_or in H as [H | [H | [H | []]]]; try discriminate.
        apply runs_only_run in H as (q & p & H). discriminate.
      * intros (rss & Hrss). destruct (Hnone rss Hrss).
    + intros rss Hrss. destruct (Hnone rss Hrss).
    + intros _. split; [| eexists; reflexivity].
      cbn [app]. right. right. apply in_or_app. right. left. reflexivity.
Qed.

(** C6. Whatever the server answers, a call of [readTransaction],
    [writeTransaction] or [multipleStatements] that opens a session closes
    it as its last action, before it resolves or is rejected: after a
    result, after a failed statement, and after a failed commit or
    rollback. A call that opens no session is rejected at once. *)
Theorem session_released (w : world) :
  (forall query params, releases_session w (readTransaction server query params w)) /\
  (forall query params, releases_session w (writeTransaction server query params w)) /\
  (forall statements, releases_session w (multipleStatements server statements w)).
Proof.
  assert (Hnot : ~ ready w -> forall (A : Type) (mode : option access_mode) (k : Async A),
             exists r, then_ (acquire_session mode) (fun _ => k) w = (Rejected r, w)).
  { intros Hn A mode k. destruct (acquire_session_not_ready mode w Hn) as [r Hr].
    exists r. unfold then_. rewrite Hr. reflexivity. }
  assert (Hruns : forall l, forallb (fun e => negb (session_event e)) (runs l) = true).
  { intros l. apply forallb_forall. intros e He.
    apply runs_only_run in He as (q & p & ->). reflexivity. }
  assert (Hdec : ready w \/ ~ ready w).
  { unfold ready. destruct (driver w) as [d |].
    - destruct (multiDBSupport w).
      + destruct (config w) as [c |].
        * left. split; eauto.
        * right. intros [_ H]. destruct H as [c Hc]; [reflexivity | discriminate].
      + left. split; [eauto |]. intros H; discriminate.
    - right. intros [[d Hd] _]. discriminate. }
  destruct Hdec as [Hr | Hn].
  - split; [| split].
    + intros query params. right. rewrite (readTransaction_spec query params w Hr).
      exists (session_database w), (Some READ),
        [ManagedTransaction READ query (default (VObj []) params)].
      split; reflexivity.
    + intros query params. right. rewrite (writeTransaction_spec query params w Hr).
      exists (session_database w), None,
        [ManagedTransaction WRITE query (default (VObj []) params)].
      split; reflexivity.
    + intros statements. right. rewrite (multipleStatements_spec statements w Hr).
      destruct (answers server 0 statements) as [rss | [j r]].
      * destruct (tx_commit server) as [r |].
        -- exists (session_database w), None,
             (BeginTransaction :: runs statements ++ [Commit; Rollback]).
           split.
           ++ cbn [snd after trace app]. rewrite <- app_assoc. reflexivity.
           ++ cbn [forallb]. rewrite forallb_app, Hruns. reflexivity.
        -- exists (session_database w), None,
             (BeginTransaction :: runs statements ++ [Commit]).
           split.
           ++ cbn [snd after trace app]. rewrite <- app_assoc. reflexivity.
           ++ cbn [forallb]. rewrite forallb_app, Hruns. reflexivity.
      * exists (session_database w), None,
          (BeginTransaction :: runs (firstn (S j) statements) ++ [Rollback]).
        split.
        -- cbn [snd after trace app]. rewrite <- app_assoc. reflexivity.
        -- cbn [forallb]. rewrite forallb_app, Hruns. reflexivity.
  - split; [| split]; intros; left; apply (Hnot Hn).
Qed.

End transaction_properties.

Section transaction_runs.
Import Values Normalizer Runtime Transactions.

(** The world a successful [init] leaves. *)
Let connected : world :=
  snd (Bootstrap.init (refusing_statement 1) "neo4j://localhost" "neo4j" "secret" None None
         initial).

Let three : list Statement :=
  [ {| statement := "CREATE (a:Person)"; parameters := VObj [] |};
    {| statement := "CREATE (b:Person"; parameters := VObj [] |};
    {| statement := "MATCH (n) RETURN n"; parameters := VObj [] |} ].

Lemma multipleStatements_atomic_witness :
  ready connected /\
  (trace (snd (multipleStatements (refusing_statement 1) three connected))
   = trace connected ++
     [OpenSession (Some "neo4j") None; BeginTransaction;
      Run "CREATE (a:Person)" (VObj []); Run "CREATE (b:Person" (VObj []);
      Rollback; CloseSession] /\
   fst (multipleStatements (refusing_statement 1) three connected)
   = Rejected (Neo4jError "SyntaxError")) /\
  (trace (snd (multipleStatements (refusing_statement 3) three connected))
   = trace connected ++
     [OpenSession (Some "neo4j") None; BeginTransaction;
      Run "CREATE (a:Person)" (VObj []); Run "CREATE (b:Person" (VObj []);
      Run "MATCH (n) RETURN n" (VObj []);
      Commit; CloseSession] /\
   fst (multipleStatements (refusing_statement 3) three connected)
   = Resolved [VArr [VObj [("n", VNum (number_of_Z 0))]];
               VArr [VObj [("n", VNum (number_of_Z 1))]];
               VArr [VObj [("n", VNum (number_of_Z 2))]]]).
Proof.
  assert (Hready : ready connected).
  { split; [eexists; reflexivity | intros _; eexists; reflexivity]. }
  split; [exact Hready |]. split.
  - destruct (multipleStatements_atomic (refusing_statement 1) three connected Hready)
      as (new & Htrace & _ & Hrefused & _).
    destruct (Hrefused 1%nat {| statement := "CREATE (b:Person"; parameters := VObj [] |}
                (Neo4jError "SyntaxError")) as [Hnew Hfst].
    + intros k s' Hk _. destruct k; [eexists; reflexivity | lia].
    + reflexivity.
    + reflexivity.
    + rewrite Htrace, Hnew. split; [reflexivity | exact Hfst].
  - destruct (multipleStatements_atomic (refusing_statement 3) three connected Hready)
      as (new & Htrace & Haccepted & _).
    destruct (Haccepted [[[("n", VInt 0)]]; [[("n", VInt 1)]]; [[("n", VInt 2)]]])
      as [Hcommit _].
    + split; [reflexivity |].
      intros j s Hj. destruct j as [| [| [| j]]]; cbn in Hj;
        [injection Hj as <- | injection Hj as <- | injection Hj as <- | destruct j; discriminate];
        eexists; split; reflexivity.
    + destruct (Hcommit eq_refl) as [Hnew Hfst].
      rewrite Htrace, Hnew. split; [reflexivity | exact Hfst].
Defined.

(** When the second of three statements fails, the third is not run,
    nothing is committed and the transaction is rolled back. *)
Example second_of_three_fails :
  multipleStatements (refusing_statement 1) three connected
  = (Rejected (Neo4jError "SyntaxError"),
     after connected
       [OpenSession (Some "neo4j") None; BeginTransaction;
        Run "CREATE (a:Person)" (VObj []); Run "CREATE (b:Person" (VObj []);
        Rollback; CloseSession]).
Proof. reflexivity. Qed.

End transaction_runs.

(** ** The pruner *)

Section pruner_properties.
Import Values Pruner.

(** *** Loops *)

Lemma mapM_ext {A B : Type} (f g : A -> M B) (l : list A) :
  (forall a, In a l -> f a = g a) -> mapM f l = mapM g l.
Proof.
  induction l as [| a l IH]; intros H; simpl.
  - reflexivity.
  - rewrite (H a) by (left; reflexivity).
    rewrite IH by (intros x Hx; apply H; right; exact Hx). reflexivity.
Qed.

Lemma mapM_Return {A B : Type} (f : A -> M B) (l : list A) (bs : list B) :
  mapM f l = Some (Return bs) <-> Forall2 (fun a b => f a = Some (Return b)) l bs.
Proof.
  revert bs. induction l as [| a l IH]; intros bs; simpl.
  - unfold run_ret. split.
    + intros [= <-]. constructor.
    + intros H. inversion H. reflexivity.
  - split.
    + intros H. destruct (f a) as [[b |] |] eqn:Hfa; simpl in H; try discriminate.
      destruct (mapM f l) as [[bs' |] |] eqn:Hl; simpl in H; try discriminate.
      unfold run_ret in H. injection H as <-.
      constructor; [exact Hfa | apply IH; reflexivity].
    + intros H. inversion H as [| a' b l' bs' Hfa Hrest]; subst.
      rewrite Hfa. simpl. apply IH in Hrest. rewrite Hrest. reflexivity.
Qed.

Lemma mapM_total {A B : Type} (f : A -> M B) (l : list A) :
  (forall a, In a l -> f a <> None) -> mapM f l <> None.
Proof.
  induction l as [| a l IH]; intros H; simpl.
  - discriminate.
  - destruct (f a) as [[b |] |] eqn:Hfa; simpl.
    + assert (Hl : mapM f l <> None) by (apply IH; intros x Hx; apply H; right; exact Hx).
      destruct (mapM f l) as [[bs |] |]; simpl;
        [unfold run_ret; discriminate | discriminate | contradiction].
    + discriminate.
    + exfalso. apply (H a); [left; reflexivity | exact Hfa].
Qed.

(** *** Properties and keys *)

Lemma assign_property_keys fs key v : map fst (assign_property fs key v) = map fst fs.
Proof.
  induction fs as [| [k x] fs IH]; simpl; [reflexivity |].
  destruct (String.eqb k key); simpl; [reflexivity | f_equal; exact IH].
Qed.

Lemma lookup_assign_property fs key v key' :
  lookup_property (assign_property fs key v) key' =
  if String.eqb key key'
  then option_map (fun _ => v) (lookup_property fs key')
  else lookup_property fs key'.
Proof.
  induction fs as [| [k x] fs IH]; simpl.
  - destruct (String.eqb key key'); reflexivity.
  - destruct (String.eqb_spec k key) as [-> | Hk]; simpl.
    + destruct (String.eqb_spec key key') as [-> | Hkk]; simpl; reflexivity.
    + rewrite IH. destruct (String.eqb_spec k key') as [-> | Hk'].
      * destruct (String.eqb_spec key key'); [congruence | reflexivity].
      * reflexivity.
Qed.

(** *** The bound on the depth of the recursion *)

Lemma mapM_mono {A B : Type} (f g : A -> M B) (l : list A) (r : outcome (list B)) :
  (forall a b, In a l -> f a = Some b -> g a = Some b) ->
  mapM f l = Some r -> mapM g l = Some r.
Proof.
  revert r. induction l as [| a l IH]; intros r H; simpl.
  - auto.
  - destruct (f a) as [[b |] |] eqn:Hfa; simpl; try discriminate.
    + rewrite (H a (Return b)) by (auto; left; reflexivity). simpl.
      destruct (mapM f l) as [rl |] eqn:Hl; simpl; [| discriminate].
      rewrite (IH rl) by (auto; intros x y Hx; apply H; right; exact Hx).
      auto.
    + rewrite (H a TypeError) by (auto; left; reflexivity). simpl. auto.
Qed.

Lemma for_in_mono (rec rec' : list value -> M (list value)) fs r :
  (forall l x, rec l = Some x -> rec' l = Some x) ->
  for_in rec fs = Some r -> for_in rec' fs = Some r.
Proof.
  intros Hrec. unfold for_in. apply mapM_mono. intros [k v] b _.
  destruct v; simpl; auto.
  destruct (rec elems) as [x |] eqn:Hx; simpl; [| discriminate].
  rewrite (Hrec _ _ Hx). auto.
Qed.

Lemma loop_body_mono (rec rec' : list value -> M (list value)) ak ck r x :
  (forall l y, rec l = Some y -> rec' l = Some y) ->
  loop_body rec ak ck r = Some x -> loop_body rec' ak ck r = Some x.
Proof.
  intros Hrec. unfold loop_body.
  destruct (replace_step ak ck r) as [fs |]; simpl; [| auto].
  destruct (for_in rec fs) as [y |] eqn:Hy; simpl; [| discriminate].
  rewrite (for_in_mono rec rec' fs y Hrec Hy). auto.
Qed.

Lemma removeEmptyArrays_fuel_S (n : nat) data ak ck r :
  removeEmptyArrays_fuel n data ak ck = Some r ->
  removeEmptyArrays_fuel (S n) data ak ck = Some r.
Proof.
  revert data r. induction n as [| n IH]; intros data r; [discriminate |].
  intros H. cbn [removeEmptyArrays_fuel] in *.
  revert H. apply mapM_mono. intros a b _. apply loop_body_mono.
  intros l y. apply IH.
Qed.

Lemma removeEmptyArrays_fuel_le (n m : nat) data ak ck r :
  (n <= m)%nat ->
  removeEmptyArrays_fuel n data ak ck = Some r ->
  removeEmptyArrays_fuel m data ak ck = Some r.
Proof.
  induction 1 as [| m _ IH]; [auto |].
  intros H. apply removeEmptyArrays_fuel_S. auto.
Qed.

Lemma depth_elem (x : value) (l : list value) :
  In x l -> (depth x <= fold_right (fun y d => Nat.max (depth y) d) O l)%nat.
Proof.
  induction l as [| y l IH]; simpl; [tauto |].
  intros [-> | H]; [lia |]. specialize (IH H). lia.
Qed.

Lemma depth_field (kv : string * value) (fs : list (string * value)) :
  In kv fs -> (depth (snd kv) <= fold_right (fun y d => Nat.max (depth (snd y)) d) O fs)%nat.
Proof.
  induction fs as [| y fs IH]; simpl; [tauto |].
  intros [-> | H]; [lia |]. specialize (IH H). lia.
Qed.

Lemma indexed_from_In {A : Type} (i : nat) (l : list A) (kv : string * A) :
  In kv (indexed_from i l) -> In (snd kv) l.
Proof.
  revert i. induction l as [| a l IH]; intros i; simpl; [tauto |].
  intros [<- | H]; [left; reflexivity | right; eapply IH; exact H].
Qed.

Lemma chars_In (s : string) (v : value) : In v (chars s) -> exists c, v = VStr c.
Proof.
  induction s as [| c s IH]; simpl; [tauto |].
  intros [<- | H]; [eauto | auto].
Qed.

(** The values of the properties of a record lie less deep than the
    record. *)
Lemma own_properties_depth (r : value) (kv : string * value) :
  In kv (own_properties r) -> (depth (snd kv) <= Nat.pred (depth r))%nat.
Proof.
  destruct r; simpl; try tauto.
  - intros H. apply indexed_from_In, chars_In in H as [c ->]. simpl. lia.
  - intros H. apply indexed_from_In in H. apply depth_elem. exact H.
  - apply depth_field.
  - apply depth_field.
Qed.

Lemma assign_property_In fs key v kv :
  In kv (assign_property fs key v) -> In kv fs \/ snd kv = v.
Proof.
  induction fs as [| [k x] fs IH]; simpl; [tauto |].
  destruct (String.eqb k key); simpl.
  - intros [<- | H]; [right; reflexivity | left; right; exact H].
  - intros [<- | H]; [left; left; reflexivity |].
    destruct (IH H); [left; right; assumption | right; assumption].
Qed.

Lemma replace_step_Return ak ck (r : value) fs :
  replace_step ak ck r = Return fs ->
  fs = (if to_empty (lookup_property (own_properties r) ak) ck
        then assign_property (own_properties r) ak (VArr [])
        else own_properties r) /\
  r <> VNull /\ r <> VUndefined.
Proof.
  destruct r; simpl; intros H; try discriminate; injection H as <-;
    (split; [reflexivity | split; discriminate]).
Qed.

Lemma to_empty_true (a : option value) ck :
  to_empty a ck = true ->
  exists e rest, a = Some (VArr (e :: rest)) /\ truthy e = true /\ has_null_at e ck = true.
Proof.
  destruct a as [[| | | | | [| e rest] | | | |] |]; simpl; try discriminate.
  intros H. apply andb_true_iff in H as [H1 H2]. eauto.
Qed.

Lemma lookup_property_In fs (k : string) (v : value) :
  lookup_property fs k = Some v -> In (k, v) fs.
Proof.
  induction fs as [| [k0 x0] fs IH]; simpl; [discriminate |].
  destruct (String.eqb_spec k0 k) as [-> | Hne].
  - intros [= ->]. left. reflexivity.
  - intros H. right. apply IH. exact H.
Qed.

(** After the first statement of the loop body every array among the
    properties of the record lies less deep than the record. *)
Lemma replace_step_depth ak ck (r : value) fs (k : string) (l : list value) :
  replace_step ak ck r = Return fs -> In (k, VArr l) fs ->
  (depth (VArr l) <= Nat.pred (depth r))%nat.
Proof.
  intros Hstep Hin. apply replace_step_Return in Hstep as (-> & _ & _).
  destruct (to_empty (lookup_property (own_properties r) ak) ck) eqn:Hte.
  - apply assign_property_In in Hin as [Hin | Hin].
    + apply (own_properties_depth r _ Hin).
    + simpl in Hin. injection Hin as ->.
      apply to_empty_true in Hte as (e & rest & Hl & _).
      apply lookup_property_In, own_properties_depth in Hl. simpl in *. lia.
  - apply (own_properties_depth r _ Hin).
Qed.

Lemma removeEmptyArrays_fuel_enough (n : nat) data ak ck :
  (depth (VArr data) <= n)%nat -> removeEmptyArrays_fuel n data ak ck <> None.
Proof.
  revert data. induction n as [| n IH]; intros data Hd.
  - simpl in Hd. lia.
  - cbn [removeEmptyArrays_fuel]. apply mapM_total. intros r Hr.
    unfold loop_body.
    destruct (replace_step ak ck r) as [fs |] eqn:Hstep; simpl; [| discriminate].
    assert (Hfs : for_in (fun elems => removeEmptyArrays_fuel n elems ak ck) fs <> None).
    { unfold for_in. apply mapM_total. intros [k v] Hkv.
      destruct v; simpl; try discriminate.
      assert (Hl : removeEmptyArrays_fuel n elems ak ck <> None).
      { apply IH. pose proof (replace_step_depth ak ck r fs k elems Hstep Hkv) as H1.
        pose proof (depth_elem r data Hr) as H2. simpl in Hd. lia. }
      destruct (removeEmptyArrays_fuel n elems ak ck) as [[x |] |]; simpl;
        [discriminate | discriminate | contradiction]. }
    destruct (for_in _ fs) as [[x |] |]; simpl; [discriminate | discriminate | contradiction].
Qed.

(** The bound in [removeEmptyArrays] is never reached: any fuel that is
    at least the depth of the data gives its result. *)
Lemma removeEmptyArrays_fuel_total (n : nat) data ak ck :
  (depth (VArr data) <= n)%nat ->
  removeEmptyArrays_fuel n data ak ck = Some (removeEmptyArrays data ak ck).
Proof.
  intros Hn. unfold removeEmptyArrays.
  pose proof (removeEmptyArrays_fuel_enough (depth (VArr data)) data ak ck (Nat.le_refl _)) as H.
  destruct (removeEmptyArrays_fuel (depth (VArr data)) data ak ck) as [r |] eqn:Hr;
    [| contradiction].
  apply (removeEmptyArrays_fuel_le _ _ _ _ _ _ Hn Hr).
Qed.

(** *** The equation of [removeEmptyArrays] *)

Lemma for_in_ext (rec rec' : list value -> M (list value)) fs :
  (forall k l, In (k, VArr l) fs -> rec l = rec' l) ->
  for_in rec fs = for_in rec' fs.
Proof.
  intros H. unfold for_in. apply mapM_ext. intros [k v] Hkv.
  destruct v; simpl; try reflexivity.
  rewrite (H k elems Hkv). reflexivity.
Qed.

Lemma loop_body_ext (rec rec' : list value -> M (list value)) ak ck r :
  (forall fs k l, replace_step ak ck r = Return fs -> In (k, VArr l) fs -> rec l = rec' l) ->
  loop_body rec ak ck r = loop_body rec' ak ck r.
Proof.
  intros H. unfold loop_body.
  destruct (replace_step ak ck r) as [fs |] eqn:Hstep; simpl; [| reflexivity].
  rewrite (for_in_ext rec rec' fs); [reflexivity |].
  intros k l Hin. apply (H fs k l eq_refl Hin).
Qed.

(** [removeEmptyArrays] runs the loop body on every element of [data], the
    recursive calls being [removeEmptyArrays] itself. *)
Lemma removeEmptyArrays_unfold data ak ck :
  Some (removeEmptyArrays data ak ck) =
  mapM (loop_body (fun elems => Some (removeEmptyArrays elems ak ck)) ak ck) data.
Proof.
  rewrite <- (removeEmptyArrays_fuel_total (S (depth (VArr data)))) by lia.
  cbn [removeEmptyArrays_fuel]. apply mapM_ext. intros r Hr.
  apply loop_body_ext. intros fs k l Hstep Hin.
  apply removeEmptyArrays_fuel_total.
  pose proof (replace_step_depth ak ck r fs k l Hstep Hin) as H1.
  pose proof (depth_elem r data Hr) as H2. simpl in *. lia.
Qed.

(** *** What the loop body changes *)

Lemma same_kind_refl v : same_kind v v.
Proof. left. reflexivity. Qed.

Lemma same_kind_trans v1 v2 v3 : same_kind v1 v2 -> same_kind v2 v3 -> same_kind v1 v3.
Proof.
  intros [-> | [H1 H2]] [-> | [H3 H4]].
  - left. reflexivity.
  - right. split; assumption.
  - right. split; assumption.
  - right. split; assumption.
Qed.

Lemma same_kinds_refl fs : same_kinds fs fs.
Proof.
  induction fs as [| kv fs IH]; constructor; [split; [reflexivity | apply same_kind_refl] | exact IH].
Qed.

Lemma same_kinds_trans fs1 fs2 fs3 :
  same_kinds fs1 fs2 -> same_kinds fs2 fs3 -> same_kinds fs1 fs3.
Proof.
  intros H. revert fs3. induction H as [| a b l l' [Hk Hv] _ IH]; intros fs3 H3.
  - inversion H3. constructor.
  - inversion H3 as [| b' c l2 l3 [Hk' Hv'] Hrest]; subst. constructor.
    + split; [congruence | eapply same_kind_trans; eassumption].
    + apply IH. exact Hrest.
Qed.

Lemma same_kinds_keys fs fs' : same_kinds fs fs' -> map fst fs' = map fst fs.
Proof.
  induction 1 as [| a b l l' [Hk _] _ IH]; simpl; [reflexivity | congruence].
Qed.

Lemma same_kinds_lookup fs fs' key :
  same_kinds fs fs' ->
  match lookup_property fs key, lookup_property fs' key with
  | Some v, Some v' => same_kind v v'
  | None, None => True
  | _, _ => False
  end.
Proof.
  induction 1 as [| [k v] [k' v'] l l' [Hk Hv] _ IH]; simpl; [exact I |].
  simpl in Hk, Hv. subst k'. destruct (String.eqb k key); [exact Hv | exact IH].
Qed.

Lemma assign_property_same_kinds fs key (v : value) :
  (forall x, lookup_property fs key = Some x -> same_kind x v) ->
  same_kinds fs (assign_property fs key v).
Proof.
  induction fs as [| [k x] fs IH]; simpl; intros H; [constructor |].
  destruct (String.eqb k key) eqn:E.
  - constructor; [split; [reflexivity | apply H; reflexivity] | apply same_kinds_refl].
  - constructor; [split; [reflexivity | apply same_kind_refl] | apply IH; exact H].
Qed.

(** The first statement keeps the keys and the kinds of the values. *)
Lemma replace_step_same_kinds ak ck (r : value) fs :
  replace_step ak ck r = Return fs -> same_kinds (own_properties r) fs.
Proof.
  intros H. apply replace_step_Return in H as (-> & _ & _).
  destruct (to_empty (lookup_property (own_properties r) ak) ck) eqn:Hte.
  - apply assign_property_same_kinds. intros x Hx.
    apply to_empty_true in Hte as (e & rest & Hl & _).
    rewrite Hl in Hx. injection Hx as <-. right. split; reflexivity.
  - apply same_kinds_refl.
Qed.

(** The [for .. in] keeps what is not an array and puts, in the place of
    an array, what the recursive call made of it. *)
Lemma for_in_Return (rec : list value -> M (list value)) fs fs' :
  for_in rec fs = Some (Return fs') <->
  Forall2 (fun kv kv' =>
             match snd kv with
             | VArr l => exists l', rec l = Some (Return l') /\ kv' = (fst kv, VArr l')
             | _ => kv' = kv
             end) fs fs'.
Proof.
  unfold for_in. rewrite mapM_Return.
  split; intros H; induction H as [| [k v] kv' l l' Hkv _ IH]; constructor; try exact IH.
  - destruct v; simpl in *; try (injection Hkv as <-; reflexivity).
    destruct (rec elems) as [[x |] |]; simpl in Hkv; try discriminate.
    injection Hkv as <-. eauto.
  - destruct v; simpl in *; try (subst kv'; reflexivity).
    destruct Hkv as (x & Hx & ->). rewrite Hx. reflexivity.
Qed.

Lemma for_in_same_kinds (rec : list value -> M (list value)) fs fs' :
  for_in rec fs = Some (Return fs') -> same_kinds fs fs'.
Proof.
  rewrite for_in_Return.
  induction 1 as [| [k v] kv' l l' Hkv _ IH]; constructor; try exact IH.
  destruct v; simpl in *; try (subst kv'; split; [reflexivity | apply same_kind_refl]).
  destruct Hkv as (x & _ & ->). split; [reflexivity |]. right. split; reflexivity.
Qed.

Lemma indexed_from_keys {A B : Type} (i : nat) (l : list A) (fs : list (string * B)) :
  map fst fs = map fst (indexed_from i l) -> indexed_from i (map snd fs) = fs.
Proof.
  revert i fs. induction l as [| a l IH]; intros i [| [k b] fs]; simpl; try discriminate.
  - reflexivity.
  - intros [= -> H]. f_equal. apply IH. exact H.
Qed.

(** The parts of a run of the loop body that returns. *)
Lemma loop_body_Return (rec : list value -> M (list value)) ak ck r r' :
  loop_body rec ak ck r = Some (Return r') <->
  exists fs fs', replace_step ak ck r = Return fs /\
                 for_in rec fs = Some (Return fs') /\
                 r' = with_properties r fs'.
Proof.
  unfold loop_body. split.
  - destruct (replace_step ak ck r) as [fs |]; simpl; [| discriminate].
    destruct (for_in rec fs) as [[fs' |] |] eqn:Hfor; simpl; try discriminate.
    intros [= <-]. exists fs, fs'. repeat split. exact Hfor.
  - intros (fs & fs' & -> & Hfs & ->). simpl. rewrite Hfs. reflexivity.
Qed.

Lemma same_kinds_no_array fs fs' :
  same_kinds fs fs' -> (forall kv, In kv fs -> isArray (snd kv) = false) -> fs' = fs.
Proof.
  induction 1 as [| [k v] [k' v'] l l' [Hk Hv] _ IH]; intros Hc; [reflexivity |].
  simpl in Hk, Hv. subst k'. f_equal.
  - f_equal. destruct Hv as [-> | [Hv1 _]]; [reflexivity |].
    specialize (Hc (k, v) (or_introl eq_refl)). simpl in Hc. congruence.
  - apply IH. intros kv Hkv. apply Hc. right. exact Hkv.
Qed.

(** After the loop body the record has the properties the [for .. in]
    left. *)
Lemma own_properties_with_properties (r : value) fs' :
  same_kinds (own_properties r) fs' ->
  own_properties (with_properties r fs') = fs'.
Proof.
  intros Hsk.
  assert (Hnil : own_properties r = [] -> fs' = []).
  { intros E. rewrite E in Hsk. inversion Hsk. reflexivity. }
  destruct r; simpl in *; try (symmetry; apply Hnil; reflexivity); try reflexivity.
  - symmetry. apply (same_kinds_no_array _ _ Hsk).
    intros kv Hkv. apply indexed_from_In, chars_In in Hkv as [c ->]. reflexivity.
  - apply (indexed_from_keys 0 elems). apply same_kinds_keys. exact Hsk.
Qed.

Lemma with_properties_twice (r : value) fs fs' :
  with_properties (with_properties r fs) fs' = with_properties r fs'.
Proof.
  destruct r; reflexivity.
Qed.

Lemma with_properties_truthy (r : value) fs : truthy (with_properties r fs) = truthy r.
Proof.
  destruct r; reflexivity.
Qed.

Lemma with_properties_not_null (r : value) fs :
  r <> VNull -> r <> VUndefined ->
  with_properties r fs <> VNull /\ with_properties r fs <> VUndefined.
Proof.
  destruct r; simpl; intros; split; congruence.
Qed.

Lemma same_kinds_null fs fs' key :
  same_kinds fs fs' ->
  match lookup_property fs' key with Some VNull => true | _ => false end =
  match lookup_property fs key with Some VNull => true | _ => false end.
Proof.
  intros H. pose proof (same_kinds_lookup fs fs' key H) as Hl.
  destruct (lookup_property fs key) as [v |], (lookup_property fs' key) as [v' |];
    try contradiction; [| reflexivity].
  destruct Hl as [-> | [H1 H2]]; [reflexivity |].
  destruct v, v'; try discriminate; reflexivity.
Qed.

(** The loop body leaves a record on which the conditions come out as
    before. *)
Lemma loop_body_same_shape (rec : list value -> M (list value)) ak ck r r' :
  loop_body rec ak ck r = Some (Return r') ->
  same_shape r r' /\ own_properties r' = own_properties r' /\
  same_kinds (own_properties r) (own_properties r').
Proof.
  intros H. apply loop_body_Return in H as (fs & fs' & Hstep & Hfor & ->).
  assert (Hsk : same_kinds (own_properties r) fs').
  { eapply same_kinds_trans;
      [apply (replace_step_same_kinds _ _ _ _ Hstep) | apply (for_in_same_kinds _ _ _ Hfor)]. }
  rewrite (own_properties_with_properties r fs' Hsk).
  split; [| split; [reflexivity | exact Hsk]].
  split; [apply with_properties_truthy |].
  intros key. unfold has_null_at.
  rewrite (own_properties_with_properties r fs' Hsk).
  apply same_kinds_null. exact Hsk.
Qed.

Lemma removeEmptyArrays_fuel_same_shape (n : nat) data ak ck data' :
  removeEmptyArrays_fuel n data ak ck = Some (Return data') ->
  Forall2 same_shape data data'.
Proof.
  destruct n as [| n]; [discriminate |]. cbn [removeEmptyArrays_fuel].
  rewrite mapM_Return.
  induction 1 as [| r r' l l' Hr _ IH]; constructor; [| exact IH].
  apply loop_body_same_shape in Hr. tauto.
Qed.

(** *** The rule of the loop *)

Lemma has_null_at_truthy (e : value) ck : has_null_at e ck = true -> truthy e = true.
Proof.
  unfold has_null_at.
  destruct (lookup_property (own_properties e) ck) as [v |] eqn:Hl; [| discriminate].
  destruct e; simpl in *; try discriminate; try reflexivity.
  apply lookup_property_In, indexed_from_In, chars_In in Hl as [c Hc]. simpl in Hc.
  subst v. discriminate.
Qed.

(** The array at the named key is emptied exactly when it has a first
    element and that element has [null] at the check key. *)
Lemma to_empty_iff (a : option value) ck :
  to_empty a ck = true <->
  exists e rest, a = Some (VArr (e :: rest)) /\ has_null_at e ck = true.
Proof.
  split.
  - intros H. apply to_empty_true in H as (e & rest & Ha & _ & Hn). eauto.
  - intros (e & rest & -> & Hn). simpl. rewrite Hn, (has_null_at_truthy e ck Hn). reflexivity.
Qed.

(** What [removeEmptyArrays] makes of a record that is a plain object:
    the keys stay; the array at [arrayKey] becomes empty when the
    condition holds; every other array among the fields is pruned by the
    same function; every other field stays as it is. *)
Lemma removeEmptyArrays_record data ak ck data' (i : nat) fs :
  removeEmptyArrays data ak ck = Return data' ->
  nth_error data i = Some (VObj fs) ->
  exists fs',
    nth_error data' i = Some (VObj fs') /\
    map fst fs' = map fst fs /\
    (to_empty (lookup_property fs ak) ck = true ->
     lookup_property fs' ak = Some (VArr [])) /\
    (forall key l,
       lookup_property fs key = Some (VArr l) ->
       key <> ak \/ to_empty (Some (VArr l)) ck = false ->
       exists l', removeEmptyArrays l ak ck = Return l' /\
                  lookup_property fs' key = Some (VArr l')) /\
    (forall key v,
       lookup_property fs key = Some v -> isArray v = false ->
       lookup_property fs' key = Some v).
Proof.
  intros Hret Hi.
  pose proof (removeEmptyArrays_unfold data ak ck) as Hu. rewrite Hret in Hu.
  symmetry in Hu. apply mapM_Return in Hu.
  assert (Hr : exists r', nth_error data' i = Some r' /\
                          loop_body (fun elems => Some (removeEmptyArrays elems ak ck)) ak ck
                            (VObj fs) = Some (Return r')).
  { clear Hret. revert i Hi. induction Hu as [| r r' l l' Hr _ IH]; intros [| i] Hi;
      simpl in Hi; try discriminate.
    - injection Hi as ->. exists r'. split; [reflexivity | exact Hr].
    - apply IH. exact Hi. }
  destruct Hr as (r' & Hi' & Hbody).
  apply loop_body_Return in Hbody as (fs1 & fs' & Hstep & Hfor & ->).
  exists fs'. split; [exact Hi' |].
  pose proof (replace_step_same_kinds _ _ _ _ Hstep) as Hsk1.
  pose proof (for_in_same_kinds _ _ _ Hfor) as Hsk2.
  apply replace_step_Return in Hstep as (Hfs1 & _ & _). simpl in Hfs1, Hsk1.
  apply for_in_Return in Hfor.
  assert (Hlook : forall key,
             match lookup_property fs1 key with
             | Some (VArr l) =>
                 exists l', removeEmptyArrays l ak ck = Return l' /\
                            lookup_property fs' key = Some (VArr l')
             | Some v => lookup_property fs' key = Some v
             | None => lookup_property fs' key = None
             end).
  { intros key. clear - Hfor.
    induction Hfor as [| [k v] kv' l l' Hkv _ IH]; simpl; [reflexivity |].
    assert (Hk : fst kv' = k).
    { destruct v; simpl in Hkv; try (subst kv'; reflexivity).
      destruct Hkv as (x & _ & ->). reflexivity. }
    destruct kv' as [k' v']. simpl in Hk. subst k'. simpl.
    destruct (String.eqb k key); [| exact IH].
    destruct v; simpl in Hkv; try (injection Hkv as ->; reflexivity).
    destruct Hkv as (x & Hx & [= ->]). injection Hx as Hx. eauto. }
  split; [| split; [| split]].
  - rewrite (same_kinds_keys _ _ Hsk2), (same_kinds_keys _ _ Hsk1). reflexivity.
  - intros Hte. rewrite Hte in Hfs1.
    pose proof (Hlook ak) as H. apply to_empty_true in Hte as (e & rest & Hl & _).
    rewrite Hfs1, lookup_assign_property, String.eqb_refl, Hl in H. simpl in H.
    destruct H as (l' & Hl' & H).
    assert (Hnil : removeEmptyArrays [] ak ck = Return []) by reflexivity.
    congruence.
  - intros key l Hl Hcase. pose proof (Hlook key) as H.
    assert (Hsame : lookup_property fs1 key = Some (VArr l)).
    { rewrite Hfs1. destruct (to_empty (lookup_property fs ak) ck) eqn:Hte; [| exact Hl].
      rewrite lookup_assign_property.
      destruct (String.eqb_spec ak key) as [-> | Hne]; [| exact Hl].
      rewrite Hl in Hte. destruct Hcase; congruence. }
    rewrite Hsame in H. exact H.
  - intros key v Hv Hna. pose proof (Hlook key) as H.
    assert (Hsame : lookup_property fs1 key = Some v).
    { rewrite Hfs1. destruct (to_empty (lookup_property fs ak) ck) eqn:Hte; [| exact Hv].
      rewrite lookup_assign_property.
      destruct (String.eqb_spec ak key) as [-> | Hne]; [| exact Hv].
      apply to_empty_true in Hte as (e & rest & Hl & _). rewrite Hl in Hv.
      injection Hv as <-. discriminate. }
    rewrite Hsame in H. destruct v; try exact H. discriminate.
Qed.

(** [removeEmptyArrays] returns when no array of the data has [null] or
    [undefined] as an element. *)
Lemma removeEmptyArrays_fuel_returns (n : nat) data ak ck :
  no_nullish_element (VArr data) = true ->
  removeEmptyArrays_fuel n data ak ck <> Some TypeError.
Proof.
  revert data. induction n as [| n IH]; intros data Hd; [discriminate |].
  cbn [removeEmptyArrays_fuel]. simpl in Hd.
  induction data as [| r data IHd]; simpl; [discriminate |].
  simpl in Hd. apply andb_true_iff in Hd as [Hr Hd]. apply andb_true_iff in Hr as [Hr1 Hr2].
  assert (Hbody : loop_body (fun elems => removeEmptyArrays_fuel n elems ak ck) ak ck r
                  <> Some TypeError).
  { unfold loop_body.
    destruct (replace_step ak ck r) as [fs |] eqn:Hstep; simpl.
    - assert (Hfs : forall kv, In kv fs -> no_nullish_element (snd kv) = true).
      { apply replace_step_Return in Hstep as (-> & _ & _).
        assert (Hown : forall kv, In kv (own_properties r) ->
                                  no_nullish_element (snd kv) = true).
        { intros kv Hkv. destruct r; simpl in Hkv; try contradiction.
          - apply indexed_from_In, chars_In in Hkv as [c ->]. reflexivity.
          - apply indexed_from_In in Hkv. simpl in Hr2.
            rewrite forallb_forall in Hr2. specialize (Hr2 _ Hkv).
            apply andb_true_iff in Hr2. tauto.
          - simpl in Hr2. rewrite forallb_forall in Hr2. apply Hr2. exact Hkv.
          - simpl in Hr2. rewrite forallb_forall in Hr2. apply Hr2. exact Hkv. }
        destruct (to_empty _ ck); [| exact Hown].
        intros kv Hkv. apply assign_property_In in Hkv as [Hkv | ->]; [auto | reflexivity]. }
      assert (Hfor : for_in (fun elems => removeEmptyArrays_fuel n elems ak ck) fs
                     <> Some TypeError).
      { unfold for_in. clear Hstep. induction fs as [| [k v] fs IHfs]; simpl; [discriminate |].
        assert (Hv : no_nullish_element v = true) by (apply (Hfs (k, v)); left; reflexivity).
        assert (Hrest : mapM
                          (fun kv =>
                             match snd kv with
                             | VArr elems =>
                                 let* elems' := removeEmptyArrays_fuel n elems ak ck in
                                 run_ret (fst kv, VArr elems')
                             | _ => run_ret kv
                             end) fs <> Some TypeError).
        { apply IHfs. intros kv Hkv. apply Hfs. right. exact Hkv. }
        destruct v; simpl;
          try (destruct (mapM _ fs) as [[x |] |]; simpl;
               [discriminate | contradiction | discriminate]).
        pose proof (IH elems Hv) as Hel.
        destruct (removeEmptyArrays_fuel n elems ak ck) as [[x |] |]; simpl;
          [| contradiction | discriminate].
        destruct (mapM _ fs) as [[y |] |]; simpl;
          [discriminate | contradiction | discriminate]. }
      destruct (for_in _ fs) as [[x |] |]; simpl; [discriminate | contradiction | discriminate].
    - destruct r; simpl in Hstep; discriminate. }
  destruct (loop_body _ ak ck r) as [[x |] |]; simpl; [| contradiction | discriminate].
  specialize (IHd Hd).
  destruct (mapM _ data) as [[y |] |]; simpl; [discriminate | contradiction | discriminate].
Qed.

Lemma removeEmptyArrays_returns data ak ck :
  no_nullish_element (VArr data) = true ->
  exists data', removeEmptyArrays data ak ck = Return data'.
Proof.
  intros H.
  pose proof (removeEmptyArrays_fuel_returns (depth (VArr data)) data ak ck H) as Hn.
  rewrite removeEmptyArrays_fuel_total in Hn by lia.
  destruct (removeEmptyArrays data ak ck) as [data' |]; [eauto | congruence].
Qed.

(** C4 on the code: an array-valued field with [null] as an element, whose
    first element is therefore not an object with [null] at the check key,
    is not left as it is; the recursive call reads a property of the [null]
    and the whole call throws. *)
Theorem removeEmptyArrays_throws_on_null_element :
  removeEmptyArrays
    [VObj [("name", VStr "Alex");
           ("friends", VArr [VObj [("name", VStr "Bea")]]);
           ("tags", VArr [VNull])]]
    "friends" "name"
  = TypeError.
Proof. reflexivity. Qed.

(** The two cases the documentation names. *)
Example removeEmptyArrays_placeholder :
  removeEmptyArrays
    [VObj [("name", VStr "Alex");
           ("friends", VArr [VObj [("address", VNull); ("name", VNull)]])]]
    "friends" "name"
  = Return [VObj [("name", VStr "Alex"); ("friends", VArr [])]].
Proof. reflexivity. Qed.

Example removeEmptyArrays_untouched :
  removeEmptyArrays
    [VObj [("name", VStr "Alex");
           ("friends", VArr [VObj [("address", VNull); ("name", VStr "Bea")]])]]
    "friends" "name"
  = Return [VObj [("name", VStr "Alex");
                  ("friends", VArr [VObj [("address", VNull); ("name", VStr "Bea")]])]].
Proof. reflexivity. Qed.

(** A placeholder inside an array that is not the named one is reached by
    the recursion. *)
Example removeEmptyArrays_nested :
  removeEmptyArrays
    [VObj [("groups",
            VArr [VObj [("friends", VArr [VObj [("name", VNull)]; VObj [("name", VStr "Bea")]])]])]]
    "friends" "name"
  = Return [VObj [("groups", VArr [VObj [("friends", VArr [])]])]].
Proof. reflexivity. Qed.

(** *** Idempotence *)

Lemma to_empty_same_shape (l l' : list value) ck :
  Forall2 same_shape l l' -> to_empty (Some (VArr l')) ck = to_empty (Some (VArr l)) ck.
Proof.
  intros H. destruct H as [| e e' l l' [Ht Hn] _]; simpl; [reflexivity |].
  rewrite Ht, Hn. reflexivity.
Qed.

Lemma loop_body_idempotent (rec : list value -> M (list value)) ak ck r r' :
  (forall l l', rec l = Some (Return l') -> rec l' = Some (Return l')) ->
  (forall l l', rec l = Some (Return l') -> Forall2 same_shape l l') ->
  loop_body rec ak ck r = Some (Return r') ->
  loop_body rec ak ck r' = Some (Return r').
Proof.
  intros Hidem Hshape H.
  apply loop_body_Return in H as (fs & fs' & Hstep & Hfor & ->).
  pose proof (replace_step_same_kinds _ _ _ _ Hstep) as Hsk1.
  pose proof (for_in_same_kinds _ _ _ Hfor) as Hsk2.
  pose proof (same_kinds_trans _ _ _ Hsk1 Hsk2) as Hsk.
  pose proof (replace_step_Return _ _ _ _ Hstep) as (Hfs & Hn & Hu).
  apply loop_body_Return. exists fs', fs'. split; [| split].
  - (* the first statement finds nothing to replace *)
    destruct (with_properties_not_null r fs' Hn Hu) as [Hn' Hu'].
    assert (Hte : to_empty (lookup_property fs' ak) ck = false).
    { apply for_in_Return in Hfor.
      destruct (to_empty (lookup_property (own_properties r) ak) ck) eqn:Hte.
      - (* replaced by the empty array, which stays empty *)
        apply to_empty_true in Hte as (e & rest & Hl & _).
        assert (Hl1 : lookup_property fs ak = Some (VArr [])).
        { rewrite Hfs, lookup_assign_property, String.eqb_refl, Hl. reflexivity. }
        clear - Hfor Hl1 Hshape.
        induction Hfor as [| [k v] kv' l l' Hkv _ IH]; simpl in *; [discriminate |].
        destruct (String.eqb k ak) eqn:E.
        + injection Hl1 as ->. simpl in Hkv. destruct Hkv as (x & Hx & ->).
          simpl. rewrite E. apply Hshape in Hx. inversion Hx. reflexivity.
        + assert (Hk : fst kv' = k).
          { destruct v; simpl in Hkv; try (subst kv'; reflexivity).
            destruct Hkv as (x & _ & ->). reflexivity. }
          destruct kv' as [k' v']. simpl in Hk. subst k'. rewrite E. apply IH. exact Hl1.
      - (* not replaced: the array is as it was, up to the recursive call *)
        subst fs. clear - Hfor Hte Hshape.
        induction Hfor as [| [k v] kv' l l' Hkv _ IH]; simpl in *; [reflexivity |].
        destruct (String.eqb k ak) eqn:E.
        + destruct v; simpl in Hkv; try (subst kv'; simpl; rewrite E; exact Hte).
          destruct Hkv as (x & Hx & ->). simpl. rewrite E.
          rewrite (to_empty_same_shape elems x ck (Hshape _ _ Hx)). exact Hte.
        + assert (Hk : fst kv' = k).
          { destruct v; simpl in Hkv; try (subst kv'; reflexivity).
            destruct Hkv as (x & _ & ->). reflexivity. }
          destruct kv' as [k' v']. simpl in Hk. subst k'. rewrite E. apply IH. exact Hte. }
    assert (Hstep' : forall x, x <> VNull -> x <> VUndefined ->
               replace_step ak ck x =
               Return (if to_empty (lookup_property (own_properties x) ak) ck
                       then assign_property (own_properties x) ak (VArr [])
                       else own_properties x)).
    { intros x Hx1 Hx2. destruct x; simpl; congruence. }
    rewrite Hstep' by assumption.
    rewrite (own_properties_with_properties r fs' Hsk), Hte. reflexivity.
  - (* the loop over the properties finds every array pruned *)
    apply for_in_Return. apply for_in_Return in Hfor.
    clear - Hfor Hidem.
    induction Hfor as [| [k v] kv' l l' Hkv _ IH]; constructor; [| exact IH].
    destruct v; simpl in Hkv; try (subst kv'; reflexivity).
    destruct Hkv as (x & Hx & ->). simpl. exists x. split; [| reflexivity].
    apply (Hidem _ _ Hx).
  - symmetry. apply with_properties_twice.
Qed.

Lemma removeEmptyArrays_fuel_idempotent (n : nat) data ak ck data' :
  removeEmptyArrays_fuel n data ak ck = Some (Return data') ->
  removeEmptyArrays_fuel n data' ak ck = Some (Return data').
Proof.
  revert data data'. induction n as [| n IH]; intros data data'; [discriminate |].
  cbn [removeEmptyArrays_fuel]. rewrite !mapM_Return.
  induction 1 as [| r r' l l' Hr _ IHl]; constructor; [| exact IHl].
  apply loop_body_idempotent in Hr; [exact Hr | exact IH |].
  intros x x'. apply removeEmptyArrays_fuel_same_shape.
Qed.

Lemma removeEmptyArrays_idempotent data ak ck data' :
  removeEmptyArrays data ak ck = Return data' ->
  removeEmptyArrays data' ak ck = Return data'.
Proof.
  intros H.
  pose (n := Nat.max (depth (VArr data)) (depth (VArr data'))).
  assert (H1 : removeEmptyArrays_fuel n data ak ck = Some (Return data')).
  { rewrite removeEmptyArrays_fuel_total by (unfold n; lia). congruence. }
  apply removeEmptyArrays_fuel_idempotent in H1.
  rewrite removeEmptyArrays_fuel_total in H1 by (unfold n; lia). congruence.
Qed.

(** C5. Applying [removeEmptyArrays] with the same keys to its own result
    gives that result again; and when the first application throws, there
    is no result to apply it to, so that the two applications in a row end
    as the single one does. *)
Theorem removeEmptyArrays_twice (data : list value) (arrayKey checkKey : string) :
  bind (removeEmptyArrays data arrayKey checkKey)
       (fun data' => removeEmptyArrays data' arrayKey checkKey)
  = removeEmptyArrays data arrayKey checkKey.
Proof.
  destruct (removeEmptyArrays data arrayKey checkKey) as [data' |] eqn:H; simpl.
  - apply removeEmptyArrays_idempotent in H. exact H.
  - reflexivity.
Qed.

End pruner_properties.

(** ** The functions on the store *)

Section store_properties.
Import Values.
Import Store.





End store_properties.

(** * Further properties *)

(** ** Of [connect] and [init] *)

Section bootstrap_traces.
Import Values Normalizer Runtime Bootstrap.
Variable server : behaviour.

Ltac run_async :=
  repeat (progress
            (unfold then_, try_catch, try_finally, emit, count_check, set_driver,
               set_config, set_multiDBSupport, settle, settle_unit, resolve, reject,
               make_driver, verify;
             cbn [config driver multiDBSupport trace checks fst snd])).

Lemma world_eq (c c' : option Config) (d d' : option Driver) (m m' : bool)
  (t t' : list event) (k k' : nat) :
  c = c' -> d = d' -> m = m' -> t = t' -> k = k' ->
  {| config := c; driver := d; multiDBSupport := m; trace := t; checks := k |}
  = {| config := c'; driver := d'; multiDBSupport := m'; trace := t'; checks := k' |}.
Proof. intros -> -> -> -> ->. reflexivity. Qed.

Ltac same_world :=
  apply world_eq; cbn [config driver multiDBSupport trace checks];
  first [reflexivity | congruence | (rewrite <- ?app_assoc; reflexivity) | lia].

Lemma connecting_connecting (w : world) (c : Config) (k k' : nat) (es es' : list event) :
  connecting (connecting w c k es) c k' es' = connecting w c (k + k') (es ++ es').
Proof.
  unfold connecting. cbn [config driver multiDBSupport trace checks].
  apply world_eq; try reflexivity; [rewrite app_assoc; reflexivity | lia].
Qed.

(** *** Counting in traces *)

Lemma checks_in_app (t t' : list event) :
  checks_in (t ++ t') = (checks_in t + checks_in t')%nat.
Proof. unfold checks_in. rewrite List.filter_app, length_app. reflexivity. Qed.

Lemma hooks_in_app (t t' : list event) :
  hooks_in (t ++ t') = (hooks_in t + hooks_in t')%nat.
Proof. unfold hooks_in. rewrite List.filter_app, length_app. reflexivity. Qed.

Lemma drivers_in_app (t t' : list event) :
  drivers_in (t ++ t') = (drivers_in t + drivers_in t')%nat.
Proof. unfold drivers_in. rewrite List.filter_app, length_app. reflexivity. Qed.

Lemma timers_in_app (t t' : list event) :
  timers_in (t ++ t') = timers_in t ++ timers_in t'.
Proof. unfold timers_in. apply flat_map_app. Qed.

Lemma failed_rounds_counts (c : Config) (k : nat) :
  checks_in (failed_rounds c k) = k /\
  drivers_in (failed_rounds c k) = k /\
  timers_in (failed_rounds c k) = repeat 5000 k /\
  hooks_in (failed_rounds c k) = 0%nat.
Proof.
  induction k as [| k (IH1 & IH2 & IH3 & IH4)]; [repeat split |].
  cbn [failed_rounds].
  rewrite !checks_in_app, !drivers_in_app, !timers_in_app, !hooks_in_app.
  rewrite IH1, IH2, IH3, IH4. repeat split.
Qed.

(** *** One round of [connect] *)

Lemma connect_round_accepted (n : nat) (w : world) (c : Config) (info : ServerInfo) :
  config w = Some c ->
  verifyConnectivity server (checks w) = inl info ->
  connect server n w = (Resolved info, connecting w c 1 (attempt c)).
Proof.
  intros Hc Hv.
  destruct n; cbn [connect]; run_async; rewrite Hc; run_async; rewrite Hv;
    (f_equal; unfold connecting, attempt, driver_of; same_world).
Qed.

Lemma connect_round_refused (n : nat) (w : world) (c : Config) (r : reason) :
  config w = Some c ->
  verifyConnectivity server (checks w) = inr r ->
  connect server (S n) w = connect server n (connecting w c 1 (attempt c ++ retry_wait)).
Proof.
  intros Hc Hv.
  cbn [connect]. run_async. rewrite Hc. run_async. rewrite Hv.
  f_equal. unfold connecting, attempt, retry_wait, driver_of. same_world.
Qed.

Lemma connect_last_refused (w : world) (c : Config) (r : reason) :
  config w = Some c ->
  verifyConnectivity server (checks w) = inr r ->
  connect server 0 w
  = (Rejected r,
     connecting w c 1 (attempt c ++ [ConsoleError "Neo4j driver instantiation failed!"])).
Proof.
  intros Hc Hv.
  cbn [connect]. run_async. rewrite Hc. run_async. rewrite Hv.
  f_equal. unfold connecting, attempt, driver_of. same_world.
Qed.

Lemma connect_after_refusals (n N : nat) (w : world) (c : Config) (info : ServerInfo) :
  config w = Some c ->
  (forall k, (k < N)%nat -> exists r, verifyConnectivity server (checks w + k) = inr r) ->
  verifyConnectivity server (checks w + N) = inl info ->
  (N <= n)%nat ->
  connect server n w
  = (Resolved info, connecting w c (S N) (failed_rounds c N ++ attempt c)).
Proof.
  revert n w. induction N as [| N IH]; intros n w Hc Hfail Hok Hle.
  - rewrite Nat.add_0_r in Hok. apply connect_round_accepted; assumption.
  - destruct n as [| n]; [lia |].
    destruct (Hfail 0%nat) as [r Hr]; [lia |]. rewrite Nat.add_0_r in Hr.
    rewrite (connect_round_refused n w c r Hc Hr).
    rewrite (IH n (connecting w c 1 (attempt c ++ retry_wait))).
    + rewrite connecting_connecting. cbn [failed_rounds].
      rewrite <- !app_assoc. reflexivity.
    + exact Hc.
    + intros k Hk. cbn [connecting checks].
      replace (checks w + 1 + k)%nat with (checks w + S k)%nat by lia.
      apply Hfail. lia.
    + cbn [connecting checks].
      replace (checks w + 1 + N)%nat with (checks w + S N)%nat by lia. exact Hok.
    + lia.
Qed.

Lemma connect_after_all_refused (n : nat) (w : world) (c : Config) (r : reason) :
  config w = Some c ->
  (forall k, (k < n)%nat -> exists r', verifyConnectivity server (checks w + k) = inr r') ->
  verifyConnectivity server (checks w + n) = inr r ->
  connect server n w
  = (Rejected r,
     connecting w c (S n)
       (failed_rounds c n ++ attempt c
        ++ [ConsoleError "Neo4j driver instantiation failed!"])).
Proof.
  revert w. induction n as [| n IH]; intros w Hc Hfail Hlast.
  - rewrite Nat.add_0_r in Hlast. apply connect_last_refused; assumption.
  - destruct (Hfail 0%nat) as [r0 Hr0]; [lia |]. rewrite Nat.add_0_r in Hr0.
    rewrite (connect_round_refused n w c r0 Hc Hr0).
    rewrite (IH (connecting w c 1 (attempt c ++ retry_wait))).
    + rewrite connecting_connecting. cbn [failed_rounds].
      rewrite <- !app_assoc. reflexivity.
    + exact Hc.
    + intros k Hk. cbn [connecting checks].
      replace (checks w + 1 + k)%nat with (checks w + S k)%nat by lia.
      apply Hfail. lia.
    + cbn [connecting checks].
      replace (checks w + 1 + n)%nat with (checks w + S n)%nat by lia. exact Hlast.
Qed.

(** Whatever the server answers. *)
Lemma connect_any (n : nat) (w : world) (c : Config) :
  config w = Some c ->
  exists k es,
    snd (connect server n w) = connecting w c k es /\
    (1 <= k <= S n)%nat /\
    checks_in es = k /\ drivers_in es = k /\
    timers_in es = repeat 5000 (k - 1) /\
    hooks_in es = 0%nat.
Proof.
  revert w. induction n as [| n IH]; intros w Hc.
  - destruct (verifyConnectivity server (checks w)) as [info | r] eqn:Hv.
    + rewrite (connect_round_accepted 0 w c info Hc Hv).
      exists 1%nat, (attempt c). repeat split; lia.
    + rewrite (connect_last_refused w c r Hc Hv).
      eexists 1%nat, _. repeat split; lia.
  - destruct (verifyConnectivity server (checks w)) as [info | r] eqn:Hv.
    + rewrite (connect_round_accepted (S n) w c info Hc Hv).
      exists 1%nat, (attempt c). repeat split; lia.
    + rewrite (connect_round_refused n w c r Hc Hv).
      destruct (IH (connecting w c 1 (attempt c ++ retry_wait)) Hc)
        as (k & es & Hw & Hk & H1 & H2 & H3 & H4).
      exists (1 + k)%nat, ((attempt c ++ retry_wait) ++ es).
      rewrite Hw, connecting_connecting.
      rewrite !checks_in_app, !drivers_in_app, !timers_in_app, !hooks_in_app.
      rewrite H1, H2, H3, H4.
      repeat split; try lia.
      replace (1 + k - 1)%nat with (S (k - 1)) by lia. reflexivity.
Qed.

(** X1. [connect(n)] against a server that refuses [N <= n] checks and
    accepts the next one resolves with the answer of that check, having
    made [N + 1] driver objects and [N + 1] checks, with the warning and a
    timer of five seconds after each refused one; the configuration and
    the flag for several databases are as before, the driver is the one of
    the last round. *)
Theorem connect_resolves_after (n N : nat) (w : world) (c : Config) (info : ServerInfo) :
  config w = Some c ->
  (forall k, (k < N)%nat -> exists r, verifyConnectivity server (checks w + k) = inr r) ->
  verifyConnectivity server (checks w + N) = inl info ->
  (N <= n)%nat ->
  connect server n w
  = (Resolved info, connecting w c (S N) (failed_rounds c N ++ attempt c)) /\
  checks_in (failed_rounds c N ++ attempt c) = S N /\
  drivers_in (failed_rounds c N ++ attempt c) = S N /\
  timers_in (failed_rounds c N ++ attempt c) = repeat 5000 N.
Proof.
  intros Hc Hfail Hok Hle. split; [apply connect_after_refusals; assumption |].
  rewrite checks_in_app, drivers_in_app, timers_in_app.
  destruct (failed_rounds_counts c N) as (-> & -> & -> & _).
  cbn. rewrite app_nil_r. repeat split; lia.
Qed.

(** X2. [connect(n)] against a server that refuses [n + 1] checks in a row
    is rejected with the reason of the last of them, after [n] timers of
    five seconds and the error message; no further check is made. *)
Theorem connect_gives_up_after (n : nat) (w : world) (c : Config) (r : reason) :
  config w = Some c ->
  (forall k, (k < n)%nat -> exists r', verifyConnectivity server (checks w + k) = inr r') ->
  verifyConnectivity server (checks w + n) = inr r ->
  let es := failed_rounds c n ++ attempt c
            ++ [ConsoleError "Neo4j driver instantiation failed!"] in
  connect server n w = (Rejected r, connecting w c (S n) es) /\
  checks_in es = S n /\
  timers_in es = repeat 5000 n.
Proof.
  intros Hc Hfail Hlast es. split; [apply connect_after_all_refused; assumption |].
  unfold es. rewrite checks_in_app, timers_in_app.
  destruct (failed_rounds_counts c n) as (-> & _ & -> & _).
  cbn. rewrite app_nil_r. split; [lia | reflexivity].
Qed.

(** X3. Whatever the server answers, [connect(n)] makes at least one and at
    most [n + 1] connectivity checks, each on a driver object of its own,
    waits five seconds between two checks, registers no exit hook, and
    changes neither the configuration nor the flag for several databases;
    the driver of the module is the one of the configuration afterwards. *)
Theorem connect_bounded (n : nat) (w : world) (c : Config) :
  config w = Some c ->
  exists k es,
    snd (connect server n w) = connecting w c k es /\
    (1 <= k <= S n)%nat /\
    checks_in es = k /\ drivers_in es = k /\
    timers_in es = repeat 5000 (k - 1) /\
    hooks_in es = 0%nat.
Proof. apply connect_any. Qed.

(** *** [init] *)

(** The world [init] hands to [connect]. *)
Lemma init_unfold url user password database options (w : world) :
  init server url user password database options w =
  match connect server 5
          {| config := Some (init_config url user password database options);
             driver := driver w; multiDBSupport := multiDBSupport w;
             trace := trace w; checks := checks w |} with
  | (Rejected r, w1) => (Rejected r, w1)
  | (Resolved info, w1) =>
      match exec_version (version info) with
      | None => (Rejected (TypeErrorOf "matches"), after w1 [ConsoleLog info])
      | Some major =>
          (Resolved info,
           {| config := config w1; driver := driver w1;
              multiDBSupport := (if to_number major >? 3 then true else multiDBSupport w1);
              trace := trace w1 ++ [ConsoleLog info; OnExit]; checks := checks w1 |})
      end
  end.
Proof.
  unfold init, check_version, init_config.
  unfold then_ at 1. unfold set_config at 1. unfold try_catch at 1. unfold then_ at 1.
  cbn beta iota.
  destruct (connect server 5 _) as [[info | r] w1]; [| reflexivity].
  destruct (exec_version (version info)) as [major |].
  - destruct (to_number major >? 3); run_async; f_equal; same_world.
  - run_async. f_equal.
Qed.


(** Whatever the server answers. *)
Lemma init_any url user password database options (w : world) :
  let c := init_config url user password database options in
  let run := init server url user password database options w in
  exists k es,
    snd run
    = {| config := Some c;
         driver := Some (driver_of c);
         multiDBSupport :=
           multiDBSupport w ||
           match fst run with
           | Resolved info => supports_multiDB (version info)
           | Rejected _ => false
           end;
         trace := trace w ++ es;
         checks := checks w + k |} /\
    (1 <= k <= 6)%nat /\
    checks_in es = k /\ drivers_in es = k /\
    timers_in es = repeat 5000 (k - 1) /\
    hooks_in es = match fst run with Resolved _ => 1%nat | Rejected _ => 0%nat end.
Proof.
  intros c run. unfold run. rewrite init_unfold. fold c.
  set (w0 := {| config := Some c; driver := driver w; multiDBSupport := multiDBSupport w;
                trace := trace w; checks := checks w |}).
  destruct (connect_any 5 w0 c eq_refl) as (k & es & Hw & Hk & H1 & H2 & H3 & H4).
  destruct (connect server 5 w0) as [[info | r] w1]; cbn [snd] in Hw; subst w1.
  - destruct (exec_version (version info)) as [major |] eqn:Hver.
    + exists k, (es ++ [ConsoleLog info; OnExit]). cbn [fst snd].
      unfold supports_multiDB. rewrite Hver.
      rewrite checks_in_app, drivers_in_app, timers_in_app, hooks_in_app, H1, H2, H3, H4.
      cbn. rewrite app_nil_r.
      repeat split; try lia.
      unfold connecting, w0. cbn [config driver multiDBSupport trace checks].
      apply world_eq; try reflexivity; [| rewrite <- app_assoc; reflexivity].
      destruct (to_number major >? 3), (multiDBSupport w); reflexivity.
    + exists k, (es ++ [ConsoleLog info]). cbn [fst snd].
      rewrite checks_in_app, drivers_in_app, timers_in_app, hooks_in_app, H1, H2, H3, H4.
      cbn. rewrite app_nil_r.
      repeat split; try lia.
      unfold after, connecting, w0. cbn [config driver multiDBSupport trace checks].
      apply world_eq; try reflexivity; [| rewrite <- app_assoc; reflexivity].
      rewrite orb_false_r. reflexivity.
  - exists k, es. cbn [fst snd]. repeat split; try assumption; try lia.
    unfold connecting, w0. cbn [config driver multiDBSupport trace checks].
    apply world_eq; try reflexivity. rewrite orb_false_r. reflexivity.
Qed.

(** X5. Whatever the server answers, [init] makes at least one and at most
    six connectivity checks, with a timer of five seconds between two of
    them and a driver object for each. *)
Theorem init_at_most_six_checks url user password database options (w : world) :
  exists k es,
    trace (snd (init server url user password database options w)) = trace w ++ es /\
    checks (snd (init server url user password database options w)) = (checks w + k)%nat /\
    (1 <= k <= 6)%nat /\
    checks_in es = k /\ drivers_in es = k /\
    timers_in es = repeat 5000 (k - 1).
Proof.
  destruct (init_any url user password database options w)
    as (k & es & Hw & Hk & H1 & H2 & H3 & _).
  exists k, es. rewrite Hw. repeat split; try assumption; lia.
Qed.

(** X6. The exit hook that closes the driver is registered exactly when
    [init] resolves, and then once: a rejected [init] leaves no hook
    behind, and every resolved one adds another. *)
Theorem init_exit_hook url user password database options (w : world) :
  exists es,
    trace (snd (init server url user password database options w)) = trace w ++ es /\
    hooks_in es =
      match fst (init server url user password database options w) with
      | Resolved _ => 1%nat
      | Rejected _ => 0%nat
      end.
Proof.
  destruct (init_any url user password database options w)
    as (k & es & Hw & _ & _ & _ & _ & H).
  exists es. rewrite Hw. split; [reflexivity | exact H].
Qed.

(** X7. Resolved or rejected, [init] leaves the configuration made of its
    arguments and a driver of that configuration in the module:
    [getDriver] returns a driver after a rejected [init] too, and the
    transaction helpers find the module ready to open a session. *)
Theorem init_leaves_driver url user password database options (w : world) :
  let c := init_config url user password database options in
  let w' := snd (init server url user password database options w) in
  config w' = Some c /\
  getDriver w' = Some (driver_of c) /\
  Transactions.ready w'.
Proof.
  intros c w'.
  destruct (init_any url user password database options w) as (k & es & Hw & _).
  fold c in Hw. fold w' in Hw. unfold getDriver, Transactions.ready. rewrite Hw.
  cbn [config driver multiDBSupport]. repeat split; eauto.
Qed.


(** *** [init] of [index.js] *)

Lemma init_js_unfold url user password database options (w : world) :
  let c := init_config url user password database options in
  let w0 := {| config := Some c; driver := Some (driver_of c);
               multiDBSupport := multiDBSupport w;
               trace := trace w ++ [NewDriver (driver_of c); OnExit; VerifyConnectivity];
               checks := S (checks w) |} in
  init_js server url user password database options w =
  match verifyConnectivity server (checks w) with
  | inr r => (Rejected r, after w0 [ConsoleError "Neo4j driver instantiation failed"])
  | inl info =>
      match exec_version (version info) with
      | None =>
          (Rejected (TypeErrorOf "matches"),
           after w0 [ConsoleLog info; ConsoleError "Neo4j driver instantiation failed"])
      | Some major =>
          (Resolved info,
           {| config := Some c; driver := Some (driver_of c);
              multiDBSupport := (if to_number major >? 3 then true else multiDBSupport w);
              trace := trace w0 ++ [ConsoleLog info]; checks := S (checks w) |})
      end
  end.
Proof.
  intros c w0. unfold init_js, check_version. fold c. run_async.
  destruct (verifyConnectivity server (checks w)) as [info | r].
  - destruct (exec_version (version info)) as [major |].
    + destruct (to_number major >? 3); run_async; f_equal; unfold w0; same_world.
    + run_async. f_equal. unfold after, w0. same_world.
  - run_async. f_equal. unfold after, w0. same_world.
Qed.

(** X9. [init] of the older [index.js] checks the connection once and
    never waits: whatever the server answers there is one driver object,
    one check and no timer, a refused check rejects the promise with its
    reason at once, and the exit hook is registered before the check, so
    that it is there after a rejected call as well. *)
Theorem init_js_single_check url user password database options (w : world) :
  let run := init_js server url user password database options w in
  (exists es,
     trace (snd run) = trace w ++ es /\
     checks_in es = 1%nat /\ drivers_in es = 1%nat /\ timers_in es = [] /\
     hooks_in es = 1%nat) /\
  (forall r, verifyConnectivity server (checks w) = inr r -> fst run = Rejected r).
Proof.
  intros run. unfold run. rewrite init_js_unfold. split.
  - destruct (verifyConnectivity server (checks w)) as [info | r].
    + destruct (exec_version (version info)) as [major |];
        cbn [snd after trace]; rewrite <- app_assoc; eexists; (split; [reflexivity |]);
        repeat split.
    + cbn [snd after trace]. rewrite <- app_assoc. eexists. split; [reflexivity |].
      repeat split.
  - intros r ->. reflexivity.
Qed.

(** X10. When the first connectivity check is accepted, [init] of
    [src/index.ts] and [init] of [index.js] settle alike and leave the same
    configuration, driver and flag for several databases in the module. *)
Theorem init_js_agrees url user password database options (w : world) (info : ServerInfo) :
  verifyConnectivity server (checks w) = inl info ->
  let old := init_js server url user password database options w in
  let new := init server url user password database options w in
  fst old = fst new /\
  config (snd old) = config (snd new) /\
  driver (snd old) = driver (snd new) /\
  multiDBSupport (snd old) = multiDBSupport (snd new) /\
  checks (snd old) = checks (snd new).
Proof.
  intros Hv old new. unfold old, new.
  rewrite init_js_unfold, init_unfold, Hv.
  set (c := init_config url user password database options).
  rewrite (connect_round_accepted 5
             {| config := Some c; driver := driver w; multiDBSupport := multiDBSupport w;
                trace := trace w; checks := checks w |} c info eq_refl Hv).
  destruct (exec_version (version info)) as [major |];
    cbn [fst snd after connecting config driver multiDBSupport checks];
    repeat split; lia.
Qed.

(** *** The options *)



(** *** The version pattern, read from a match *)

Lemma once_sound cls (k : matcher) (s : string) (pieces : list string) :
  once cls k s = Some pieces ->
  exists c s' ps, s = String c s' /\ in_class cls c = true /\
                  k s' = Some ps /\ pieces = String c EmptyString :: ps.
Proof.
  destruct s as [| c s']; cbn [once]; [discriminate |].
  destruct (in_class cls c) eqn:Hc; [| discriminate].
  destruct (k s') as [ps |] eqn:Hk; [| discriminate].
  intros [= <-]. exists c, s', ps. repeat split; assumption.
Qed.

Lemma greedy_sound cls (k : matcher) (s m : string) (pieces : list string) :
  greedy cls k s = Some (m, pieces) ->
  exists rest, s = (m ++ rest)%string /\ m <> EmptyString /\ all_in cls m = true /\
               k rest = Some pieces.
Proof.
  revert m pieces. induction s as [| c s IH]; intros m pieces; cbn [greedy]; [discriminate |].
  destruct (in_class cls c) eqn:Hc; [| discriminate].
  destruct (greedy cls k s) as [[m' ps] |] eqn:Hg.
  - intros [= <- <-]. destruct (IH m' ps eq_refl) as (rest & -> & Hne & Hall & Hk).
    exists rest. cbn [all_in]. rewrite Hc, Hall. repeat split; [discriminate | exact Hk].
  - destruct (k s) as [ps |] eqn:Hk; [| discriminate].
    intros [= <- <-]. exists s. cbn [all_in]. rewrite Hc. repeat split; [discriminate | exact Hk].
Qed.

Lemma one_or_more_sound cls (k : matcher) (s : string) (pieces : list string) :
  one_or_more cls k s = Some pieces ->
  exists m rest ps, s = (m ++ rest)%string /\ m <> EmptyString /\ all_in cls m = true /\
                    k rest = Some ps /\ pieces = m :: ps.
Proof.
  unfold one_or_more. destruct (greedy cls k s) as [[m ps] |] eqn:Hg; [| discriminate].
  intros [= <-]. destruct (greedy_sound cls k s m ps Hg) as (rest & -> & Hne & Hall & Hk).
  exists m, rest, ps. repeat split; assumption.
Qed.

(** Backtracking finds a match whenever some way of cutting the string
    gives one. *)
Lemma greedy_complete cls (k : matcher) (run rest : string) :
  run <> EmptyString -> all_in cls run = true -> k rest <> None ->
  greedy cls k (run ++ rest)%string <> None.
Proof.
  intros Hne Hall Hk. induction run as [| c run IH]; [congruence |].
  cbn [all_in] in Hall. apply andb_true_iff in Hall as [Hc Hall].
  change (String c run ++ rest)%string with (String c (run ++ rest)%string).
  cbn [greedy]. rewrite Hc.
  destruct (greedy cls k (run ++ rest)%string) as [[m ps] |] eqn:Hg; [discriminate |].
  destruct run as [| c' run].
  - change ("" ++ rest)%string with rest. destruct (k rest); [discriminate | congruence].
  - exfalso. apply IH; [discriminate | exact Hall | reflexivity].
Qed.

Lemma one_or_more_complete cls (k : matcher) (run rest : string) :
  run <> EmptyString -> all_in cls run = true -> k rest <> None ->
  one_or_more cls k (run ++ rest)%string <> None.
Proof.
  intros Hne Hall Hk. unfold one_or_more.
  pose proof (greedy_complete cls k run rest Hne Hall Hk) as H.
  destruct (greedy cls k (run ++ rest)%string); [discriminate | congruence].
Qed.

Lemma once_lit_sound (c : ascii) (k : matcher) (s : string) (pieces : list string) :
  once (Lit c) k s = Some pieces ->
  exists s' ps, s = String c s' /\ k s' = Some ps /\ pieces = String c EmptyString :: ps.
Proof.
  intros H. destruct (once_sound _ _ _ _ H) as (c' & s' & ps & -> & Hc & Hk & ->).
  cbn [in_class] in Hc. apply Ascii.eqb_eq in Hc. subst c'. eauto.
Qed.

(** X12. The version pattern matches exactly the strings that begin with
    [Neo4j/], digits, one character that is no line terminator, digits,
    one such character and digits: the first group of a match is a way to
    read the first digits of such a string, and every such string has a
    match. The two characters need not be dots, and anything may follow
    the last digits. *)
Theorem exec_version_shape (version : string) :
  (forall major, exec_version version = Some major -> version_shape version major) /\
  (forall major, version_shape version major -> exec_version version <> None).
Proof.
  split.
  - intros major. unfold exec_version, match_prefix, version_pattern.
    cbn [fold_right item_matcher fst snd].
    destruct (once (Lit "N") _ version) as [pieces |] eqn:H; [| discriminate].
    intros Hnth.
    apply once_lit_sound in H as (s1 & p1 & -> & H & ->).
    apply once_lit_sound in H as (s2 & p2 & -> & H & ->).
    apply once_lit_sound in H as (s3 & p3 & -> & H & ->).
    apply once_lit_sound in H as (s4 & p4 & -> & H & ->).
    apply once_lit_sound in H as (s5 & p5 & -> & H & ->).
    apply once_lit_sound in H as (s6 & p6 & -> & H & ->).
    apply one_or_more_sound in H as (m1 & r1 & q1 & -> & Hne1 & Hall1 & H & ->).
    cbn [nth_error] in Hnth. injection Hnth as ->.
    apply once_sound in H as (sep1 & r2 & q2 & -> & Hsep1 & H & ->).
    apply one_or_more_sound in H as (m2 & r3 & q3 & -> & Hne2 & Hall2 & H & ->).
    apply once_sound in H as (sep2 & r4 & q4 & -> & Hsep2 & H & ->).
    apply one_or_more_sound in H as (m3 & r5 & q5 & -> & Hne3 & Hall3 & H & ->).
    exists sep1, m2, sep2, m3, r5. unfold digits. repeat split; assumption.
  - intros major (sep1 & minor & sep2 & patch & rest & -> & [Hne1 Hall1] & [Hne2 Hall2]
                  & [Hne3 Hall3] & Hsep1 & Hsep2).
    unfold exec_version, match_prefix, version_pattern.
    cbn [fold_right item_matcher fst snd].
    change ("Neo4j/" ++ major ++ String sep1 (minor ++ String sep2 (patch ++ rest)))%string
      with (String "N" (String "e" (String "o" (String "4" (String "j" (String "/"
             (major ++ String sep1 (minor ++ String sep2 (patch ++ rest)))))))))%string.
    unfold once at 1 2 3 4 5 6. cbn [in_class Ascii.eqb Bool.eqb].
    assert (H3 : one_or_more Digit (fun _ => Some []) (patch ++ rest)%string <> None).
    { apply one_or_more_complete; [assumption .. | discriminate]. }
    assert (H2 : one_or_more Digit (once AnyChar (one_or_more Digit (fun _ => Some [])))
                   (minor ++ String sep2 (patch ++ rest))%string <> None).
    { apply one_or_more_complete; [assumption .. |].
      cbn [once]. rewrite Hsep2.
      destruct (one_or_more Digit _ (patch ++ rest)%string); [discriminate | congruence]. }
    assert (H1 : one_or_more Digit
                   (once AnyChar
                      (one_or_more Digit
                         (once AnyChar (one_or_more Digit (fun _ => Some [])))))
                   (major ++ String sep1 (minor ++ String sep2 (patch ++ rest)))%string
                 <> None).
    { apply one_or_more_complete; [assumption .. |].
      cbn [once]. rewrite Hsep1.
      destruct (one_or_more Digit _ (minor ++ _)%string); [discriminate | congruence]. }
    destruct (one_or_more Digit _ (major ++ _)%string) as [pieces |] eqn:E; [| congruence].
    cbn [option_map nth_error].
    apply one_or_more_sound in E as (m & r & ps & _ & _ & _ & _ & ->). discriminate.
Qed.

(** X13. On a version of the usual form [Neo4j/<major>.<minor>.<patch>],
    with or without a suffix, the first group is [<major>] and the flag
    for several databases is decided by the major number alone. *)
Theorem supports_multiDB_major (major minor patch rest : string) :
  digits major -> digits minor -> digits patch ->
  let version := ("Neo4j/" ++ major ++ "." ++ minor ++ "." ++ patch ++ rest)%string in
  exec_version version = Some major /\
  supports_multiDB version = (to_number major >? 3).
Proof.
  intros [Hmaj1 Hmaj2] [Hmin1 Hmin2] [Hpat1 Hpat2] version.
  assert (H : exec_version version = Some major)
    by (apply exec_version_well_formed; assumption).
  split; [exact H |]. unfold supports_multiDB. rewrite H. reflexivity.
Qed.
End bootstrap_traces.

Section bootstrap_trace_runs.
Import Values Normalizer Runtime Bootstrap.

Let local : Config := init_config "neo4j://localhost" "neo4j" "secret" None None.

Let configured : world :=
  {| config := Some local; driver := None; multiDBSupport := false; trace := [];
     checks := O |}.

Let v4 : ServerInfo := {| address := "localhost:7687"; version := "Neo4j/4.4.3" |}.

Let v3 : ServerInfo := {| address := "localhost:7687"; version := "Neo4j/3.5.12" |}.

Lemma connect_resolves_after_witness :
  connect (refusing_first 2 v4) 5 configured
  = (Resolved v4, connecting configured local 3 (failed_rounds local 2 ++ attempt local)) /\
  checks_in (failed_rounds local 2 ++ attempt local) = 3%nat /\
  drivers_in (failed_rounds local 2 ++ attempt local) = 3%nat /\
  timers_in (failed_rounds local 2 ++ attempt local) = repeat 5000 2.
Proof.
  apply (connect_resolves_after (refusing_first 2 v4) 5 2 configured local v4).
  - reflexivity.
  - intros k Hk. eexists. apply refusing_first_refuses. exact Hk.
  - reflexivity.
  - lia.
Defined.

Lemma connect_gives_up_after_witness :
  let es := failed_rounds local 2 ++ attempt local
            ++ [ConsoleError "Neo4j driver instantiation failed!"] in
  connect (refusing_first 3 v4) 2 configured
  = (Rejected (Neo4jError "ServiceUnavailable"), connecting configured local 3 es) /\
  checks_in es = 3%nat /\
  timers_in es = repeat 5000 2.
Proof.
  apply (connect_gives_up_after (refusing_first 3 v4) 2 configured local
           (Neo4jError "ServiceUnavailable")).
  - reflexivity.
  - intros k Hk. eexists. apply refusing_first_refuses. cbn [configured checks]. lia.
  - reflexivity.
Defined.

Lemma connect_bounded_witness :
  exists k es,
    snd (connect (refusing_first 1 v4) 5 configured) = connecting configured local k es /\
    (1 <= k <= 6)%nat /\
    checks_in es = k /\ drivers_in es = k /\
    timers_in es = repeat 5000 (k - 1) /\
    hooks_in es = 0%nat.
Proof.
  apply (connect_bounded (refusing_first 1 v4) 5 configured local). reflexivity.
Defined.



Lemma init_js_single_check_witness :
  fst (init_js (refusing_first 1 v4) "neo4j://localhost" "neo4j" "secret" None None initial)
  = Rejected (Neo4jError "ServiceUnavailable").
Proof.
  apply (proj2 (init_js_single_check (refusing_first 1 v4) "neo4j://localhost" "neo4j"
                  "secret" None None initial)).
  reflexivity.
Defined.

Lemma init_js_agrees_witness :
  let old := init_js (refusing_first 0 v4) "neo4j://localhost" "neo4j" "secret" None None
               initial in
  let new := init (refusing_first 0 v4) "neo4j://localhost" "neo4j" "secret" None None
               initial in
  fst old = fst new /\
  config (snd old) = config (snd new) /\
  driver (snd old) = driver (snd new) /\
  multiDBSupport (snd old) = multiDBSupport (snd new) /\
  checks (snd old) = checks (snd new).
Proof.
  apply (init_js_agrees (refusing_first 0 v4) "neo4j://localhost" "neo4j" "secret" None None
           initial v4).
  reflexivity.
Defined.


Lemma exec_version_shape_witness :
  version_shape "Neo4j/4.4.3" "4" /\ exec_version "Neo4j/3x5y1-beta" <> None.
Proof.
  split.
  - apply (proj1 (exec_version_shape "Neo4j/4.4.3") "4"). reflexivity.
  - apply (proj2 (exec_version_shape "Neo4j/3x5y1-beta") "3").
    exists "x"%char, "5", "y"%char, "1", "-beta". unfold digits.
    repeat split; discriminate.
Defined.

Lemma supports_multiDB_major_witness :
  exec_version "Neo4j/10.2.33-enterprise" = Some "10" /\
  supports_multiDB "Neo4j/10.2.33-enterprise" = (to_number "10" >? 3).
Proof.
  apply (supports_multiDB_major "10" "2" "33" "-enterprise");
    unfold digits; split; (discriminate || reflexivity).
Defined.

End bootstrap_trace_runs.

(** ** Of the normalizer *)

Section normalizer_results.
Import Values Normalizer.

Lemma forallb_map_fields (p : value -> bool) (f : value -> value)
  (fs : list (string * value)) :
  Forall (fun kv => p (f (snd kv)) = true) fs ->
  forallb (fun kv => p (snd kv)) (map_fields f fs) = true.
Proof.
  unfold map_fields. induction 1 as [| kv fs H _ IH]; [reflexivity |].
  cbn [map forallb snd]. rewrite H, IH. reflexivity.
Qed.

Lemma forallb_map_values (p : value -> bool) (f : value -> value) (l : list value) :
  Forall (fun x => p (f x) = true) l -> forallb p (map f l) = true.
Proof.
  induction 1 as [| x l H _ IH]; [reflexivity |].
  cbn [map forallb]. rewrite H, IH. reflexivity.
Qed.

Lemma convertValues_is_plain (v : value) : plain (convertValues v) = true.
Proof.
  induction v as [| | b | n | s | l IH | fs IH | i | k s fs IH | id ls ps _ IH]
    using value_ind'; cbn [convertValues plain]; try reflexivity.
  - apply forallb_map_values. exact IH.
  - apply forallb_map_fields. exact IH.
  - destruct (inSafeRange i); reflexivity.
  - apply forallb_map_fields. exact IH.
Qed.

(** X14. Of a value made of plain data, integers of the driver, temporal
    and spatial values and nodes, at any depth, [convertValues] leaves
    plain data only: no integer, no temporal or spatial value and no node
    is left in the result. Converting a converted value changes nothing.
    (The other classes of the driver, relationships and paths, are not
    among the values here.) *)
Theorem convertValues_normal_form (v : value) :
  plain (convertValues v) = true /\
  convertValues (convertValues v) = convertValues v.
Proof.
  split; [apply convertValues_is_plain |].
  apply convertValues_plain_id, convertValues_is_plain.
Qed.

(** X15. The conversion of the driver's integers loses nothing: two
    integers that differ are converted to values that differ, be they
    numbers or strings of digits. *)
Theorem convertValues_integer_injective (i j : Z) :
  i <> j -> convertValues (VInt i) <> convertValues (VInt j).
Proof.
  intros Hne H. apply Hne. cbn [convertValues] in H.
  destruct (inSafeRange i), (inSafeRange j); try discriminate.
  - apply number_of_Z_inj. unfold toNumber in H. congruence.
  - apply toString_inj. congruence.
Qed.

(** *** Records *)

Lemma set_property_fresh (obj : list (string * value)) (key : string) (v : value) :
  ~ In key (map fst obj) -> set_property obj key v = obj ++ [(key, v)].
Proof.
  induction obj as [| [k x] obj IH]; intros Hnin; [reflexivity |].
  cbn [set_property]. destruct (String.eqb_spec k key) as [-> | Hne].
  - exfalso. apply Hnin. left. reflexivity.
  - cbn [app]. rewrite IH; [reflexivity |]. intros Hin. apply Hnin. right. exact Hin.
Qed.

Lemma get_app_fresh (r1 r2 : record) (key : string) :
  ~ In key (keys r1) -> get (r1 ++ r2) key = get r2 key.
Proof.
  induction r1 as [| [k x] r1 IH]; intros Hnin; [reflexivity |].
  cbn [app get]. destruct (String.eqb_spec k key) as [-> | Hne].
  - exfalso. apply Hnin. left. reflexivity.
  - apply IH. intros Hin. apply Hnin. right. exact Hin.
Qed.

Lemma extract_from (f : value -> value) (r1 r2 : record) :
  List.NoDup (keys (r1 ++ r2)) ->
  fold_left (fun obj key => set_property obj key (f (get (r1 ++ r2) key))) (keys r2)
    (map_fields f r1)
  = map_fields f (r1 ++ r2).
Proof.
  revert r1. induction r2 as [| [k x] r2 IH]; intros r1 Hnd.
  - rewrite app_nil_r. reflexivity.
  - cbn [keys map fst fold_left].
    assert (Hk : ~ In k (keys r1)).
    { unfold keys in Hnd. rewrite map_app in Hnd. cbn [map fst] in Hnd.
      apply List.NoDup_remove_2 in Hnd. intros Hin. apply Hnd. apply in_or_app. left. exact Hin. }
    rewrite (get_app_fresh r1 _ k Hk). cbn [get]. rewrite String.eqb_refl.
    rewrite set_property_fresh.
    + replace (map_fields f r1 ++ [(k, f x)]) with (map_fields f (r1 ++ [(k, x)]))
        by (unfold map_fields; rewrite map_app; reflexivity).
      replace (r1 ++ (k, x) :: r2) with ((r1 ++ [(k, x)]) ++ r2) in *
        by (rewrite <- app_assoc; reflexivity).
      apply (IH (r1 ++ [(k, x)])). exact Hnd.
    + unfold map_fields. rewrite map_map. cbn [fst]. exact Hk.
Qed.

Lemma extractRecord_fields (r : record) :
  List.NoDup (keys r) -> extractRecord r = VObj (map_fields convertValues r).
Proof.
  intros Hnd. unfold extractRecord. f_equal.
  apply (extract_from convertValues [] r). exact Hnd.
Qed.

(** X16. From records whose column names are distinct, as those of a
    query are, and none of which reads as an array index or is
    [__proto__], [extractRecords] makes one object for each record, in
    the order of the records; the object has the columns of the record as
    its keys, in their order, each with the converted value of the column.
    (An object lists keys that read as array indices first, whatever the
    order of the columns: such column names are left out here.) *)
Theorem extractRecords_objects (rs : list record) :
  Forall (fun r => List.NoDup (keys r) /\ forallb ordinary_key (keys r) = true) rs ->
  extractRecords (DRecords rs)
  = VArr (map (fun r => VObj (map_fields convertValues r)) rs).
Proof.
  intros H. cbn [extractRecords]. f_equal.
  induction H as [| r rs [Hr _] _ IH]; [reflexivity |].
  cbn [map]. rewrite (extractRecord_fields r Hr), IH. reflexivity.
Qed.

Lemma set_property_plain (obj : list (string * value)) (key : string) (v : value) :
  forallb (fun kv => plain (snd kv)) obj = true -> plain v = true ->
  forallb (fun kv => plain (snd kv)) (set_property obj key v) = true.
Proof.
  intros Hobj Hv. induction obj as [| [k x] obj IH]; cbn [set_property forallb snd].
  - rewrite Hv. reflexivity.
  - cbn [forallb snd] in Hobj. apply andb_true_iff in Hobj as [Hx Hobj].
    destruct (String.eqb k key); cbn [forallb snd].
    + rewrite Hv, Hobj. reflexivity.
    + rewrite Hx, (IH Hobj). reflexivity.
Qed.

Lemma extractRecord_plain (r : record) : plain (extractRecord r) = true.
Proof.
  unfold extractRecord. cbn [plain].
  assert (H : forall ks obj,
             forallb (fun kv => plain (snd kv)) obj = true ->
             forallb (fun kv => plain (snd kv))
               (fold_left (fun obj key => set_property obj key (convertValues (get r key)))
                  ks obj) = true).
  { induction ks as [| k ks IH]; intros obj Hobj; [exact Hobj |].
    cbn [fold_left]. apply IH. apply set_property_plain; [exact Hobj |].
    apply convertValues_is_plain. }
  apply H. reflexivity.
Qed.

Lemma extractRecords_plain (rs : list record) : plain (extractRecords (DRecords rs)) = true.
Proof.
  cbn [extractRecords plain]. induction rs as [| r rs IH]; [reflexivity |].
  cbn [map forallb]. rewrite extractRecord_plain, IH. reflexivity.
Qed.

(** *** The copy of [index.js] *)

Lemma convertValues_js_twice (v : value) :
  convertValues_js (convertValues_js v) = convertValues_js v.
Proof.
  induction v as [| | b | n | s | l IH | fs IH | i | k s fs IH | id ls ps _ IH]
    using value_ind'; cbn [convertValues_js]; try reflexivity.
  - f_equal. rewrite map_map. apply map_ext_Forall'. exact IH.
  - f_equal. unfold map_fields. rewrite map_map. cbn [fst snd].
    apply map_ext_Forall'. eapply Forall_impl; [exact IH |].
    intros kv H. cbn beta. rewrite H. reflexivity.
  - destruct (inSafeRange i); reflexivity.
  - f_equal. unfold map_fields. rewrite map_map. cbn [fst snd].
    apply map_ext_Forall'. eapply Forall_impl; [exact IH |].
    intros kv H. cbn beta. rewrite H. reflexivity.
Qed.

(** X17. [convertValues] of [index.js] changes nothing in a value it has
    converted already, whatever the value; and what it makes of a value
    that holds no temporal or spatial value holds no integer of the
    driver and no node, at any depth. *)
Theorem convertValues_js_result (v : value) :
  convertValues_js (convertValues_js v) = convertValues_js v /\
  (no_temporal v = true -> plain (convertValues_js v) = true).
Proof.
  split; [apply convertValues_js_twice |].
  intros H. rewrite <- (convertValues_js_agrees v H). apply convertValues_is_plain.
Qed.

Lemma convertValues_normal_form_witness :
  plain (convertValues (VNode (VInt 1) ["Person"] [("born", VTemporal Date "1990-01-01" [])]))
  = true.
Proof.
  apply (proj1 (convertValues_normal_form
                  (VNode (VInt 1) ["Person"] [("born", VTemporal Date "1990-01-01" [])]))).
Defined.

Lemma convertValues_integer_injective_witness :
  convertValues (VInt (2 ^ 53)) <> convertValues (VInt (2 ^ 53 + 1)).
Proof.
  apply (convertValues_integer_injective (2 ^ 53) (2 ^ 53 + 1)). lia.
Defined.

Lemma extractRecords_objects_witness :
  extractRecords (DRecords [[("name", VStr "Alex"); ("age", VInt 30)]; [("name", VNull)]])
  = VArr (map (fun r => VObj (map_fields convertValues r))
            [[("name", VStr "Alex"); ("age", VInt 30)]; [("name", VNull)]]).
Proof.
  apply (extractRecords_objects [[("name", VStr "Alex"); ("age", VInt 30)]; [("name", VNull)]]).
  repeat constructor; cbn; intuition discriminate.
Defined.

Lemma convertValues_js_result_witness :
  plain (convertValues_js (VArr [VInt 7; VNode VNull [] [("age", VInt 30)]])) = true.
Proof.
  apply (proj2 (convertValues_js_result
                  (VArr [VInt 7; VNode VNull [] [("age", VInt 30)]]))).
  reflexivity.
Defined.

End normalizer_results.

(** ** Of the transaction helpers *)

Section transaction_results.
Import Values Normalizer Runtime Transactions.
Variable server : behaviour.

Lemma ready_or_not (w : world) : ready w \/ ~ ready w.
Proof.
  unfold ready. destruct (driver w) as [d |].
  - destruct (multiDBSupport w).
    + destruct (config w) as [c |].
      * left. split; eauto.
      * right. intros [_ H]. destruct H as [c Hc]; [reflexivity | discriminate].
    + left. split; [eauto |]. intros H; discriminate.
  - right. intros [[d Hd] _]. discriminate.
Qed.

Lemma not_ready_rejected (w : world) :
  ~ ready w ->
  (forall query params, exists r, readTransaction server query params w = (Rejected r, w)) /\
  (forall query params, exists r, writeTransaction server query params w = (Rejected r, w)) /\
  (forall statements, exists r, multipleStatements server statements w = (Rejected r, w)).
Proof.
  intros Hn.
  assert (Hnot : forall (A : Type) (mode : option access_mode) (k : Async A),
             exists r, then_ (acquire_session mode) (fun _ => k) w = (Rejected r, w)).
  { intros A mode k. destruct (acquire_session_not_ready mode w Hn) as [r Hr].
    exists r. unfold then_. rewrite Hr. reflexivity. }
  split; [| split]; intros; apply Hnot.
Qed.

(** X18. Before the driver exists each of the three helpers is rejected
    with the message [Neo4j driver not initialized!] and does nothing
    else: no session is opened and nothing is sent. *)
Theorem helpers_uninitialised (w : world) :
  driver w = None ->
  (forall query params,
     readTransaction server query params w = (Rejected not_initialized, w)) /\
  (forall query params,
     writeTransaction server query params w = (Rejected not_initialized, w)) /\
  (forall statements,
     multipleStatements server statements w = (Rejected not_initialized, w)).
Proof.
  intros Hd.
  assert (H : forall (A : Type) (mode : option access_mode) (k : Async A),
             then_ (acquire_session mode) (fun _ => k) w = (Rejected not_initialized, w)).
  { intros A mode k. unfold then_, acquire_session. rewrite Hd. reflexivity. }
  split; [| split]; intros; apply H.
Qed.

(** X19. The helpers only add events: whatever the server answers and
    whether the module is initialised or not, a call leaves the
    configuration, the driver, the flag for several databases and the
    number of connectivity checks as they were. *)
Theorem helpers_keep_module_state (w : world) :
  (forall query params,
     exists es, snd (readTransaction server query params w) = after w es) /\
  (forall query params,
     exists es, snd (writeTransaction server query params w) = after w es) /\
  (forall statements,
     exists es, snd (multipleStatements server statements w) = after w es).
Proof.
  destruct (ready_or_not w) as [Hr | Hn].
  - split; [| split].
    + intros query params. rewrite (readTransaction_spec server query params w Hr).
      eexists. reflexivity.
    + intros query params. rewrite (writeTransaction_spec server query params w Hr).
      eexists. reflexivity.
    + intros statements. rewrite (multipleStatements_spec server statements w Hr).
      destruct (answers server 0 statements) as [rss | [j r]];
        [destruct (tx_commit server) |]; eexists; reflexivity.
  - destruct (not_ready_rejected w Hn) as (H1 & H2 & H3).
    split; [| split]; intros.
    + destruct (H1 query params) as [r ->]. exists []. symmetry. apply after_nil.
    + destruct (H2 query params) as [r ->]. exists []. symmetry. apply after_nil.
    + destruct (H3 statements) as [r ->]. exists []. symmetry. apply after_nil.
Qed.

(** X20. Once the module is ready, [readTransaction] and
    [writeTransaction] settle as the managed transaction of the driver
    does: with the records of the answer made into objects, or with the
    error of the driver as it is. The parameters are the empty object
    when none are given, and the session is opened for reading by the
    first only. *)
Theorem managed_transaction_outcome (query : string) (params : option value) (w : world) :
  ready w ->
  fst (readTransaction server query params w)
  = match managed server READ query (default (VObj []) params) with
    | inl records => Resolved (extractRecords (DRecords records))
    | inr r => Rejected r
    end /\
  fst (writeTransaction server query params w)
  = match managed server WRITE query (default (VObj []) params) with
    | inl records => Resolved (extractRecords (DRecords records))
    | inr r => Rejected r
    end /\
  trace (snd (readTransaction server query params w))
  = trace w ++ [OpenSession (session_database w) (Some READ);
                ManagedTransaction READ query (default (VObj []) params);
                CloseSession] /\
  trace (snd (writeTransaction server query params w))
  = trace w ++ [OpenSession (session_database w) None;
                ManagedTransaction WRITE query (default (VObj []) params);
                CloseSession].
Proof.
  intros Hr.
  rewrite (readTransaction_spec server query params w Hr).
  rewrite (writeTransaction_spec server query params w Hr).
  repeat split.
Qed.

(** X21. [multipleStatements] stops at the first statement the server
    refuses: the statements before it and the refused one are run, in
    their order, those after it are never sent, nothing is committed, the
    transaction is rolled back and the session closed. The promise is
    rejected with the error of the statement, unless the rollback fails,
    in which case it is rejected with the error of the rollback. *)
Theorem multipleStatements_first_failure (statements : list Statement) (w : world)
  (j : nat) (s : Statement) (r : reason) :
  ready w ->
  (forall k s', (k < j)%nat -> nth_error statements k = Some s' ->
     exists rs, tx_run server k (statement s') (parameters s') = inl rs) ->
  nth_error statements j = Some s ->
  tx_run server j (statement s) (parameters s) = inr r ->
  multipleStatements server statements w
  = (Rejected (after_rollback server r),
     after w ([OpenSession (session_database w) None; BeginTransaction]
              ++ runs (firstn (S j) statements) ++ [Rollback; CloseSession])).
Proof.
  intros Hr Hbefore Hj Hfail.
  rewrite (multipleStatements_spec server statements w Hr).
  rewrite (answers_first_failure server statements 0 j s r);
    [reflexivity | | exact Hj | exact Hfail].
  intros k s' Hk Hs'. apply Hbefore; assumption.
Qed.

(** X22. What the promise of [multipleStatements] is rejected with once
    the session is open: when the rollback fails, always the error of the
    rollback, so that the error of the statement or of the commit is
    lost; otherwise the error of a refused statement or of the commit. *)
Theorem multipleStatements_rejection (statements : list Statement) (w : world)
  (e : reason) :
  ready w ->
  fst (multipleStatements server statements w) = Rejected e ->
  match tx_rollback server with
  | Some r' => e = r'
  | None =>
      (exists j s, nth_error statements j = Some s /\
                   tx_run server j (statement s) (parameters s) = inr e) \/
      ((exists rss, every_statement_succeeds server statements rss) /\
       tx_commit server = Some e)
  end.
Proof.
  intros Hr. rewrite (multipleStatements_spec server statements w Hr).
  destruct (answers server 0 statements) as [rss | [j r]] eqn:Hans.
  - destruct (tx_commit server) as [r |] eqn:Hc; cbn [fst]; [| discriminate].
    intros [= <-]. unfold after_rollback. destruct (tx_rollback server); [reflexivity |].
    right. split; [| reflexivity]. exists rss.
    apply every_statement_succeeds_answers. exact Hans.
  - cbn [fst]. intros [= <-]. unfold after_rollback.
    destruct (tx_rollback server); [reflexivity |].
    left. apply answers_inr in Hans as (s & Hs & Hrun). exists j, s. split; assumption.
Qed.

(** X23. The helpers resolve only with what the server answered:
    [readTransaction] and [writeTransaction] with the records of the
    managed transaction, made into objects; [multipleStatements] only
    when every statement was accepted and the commit went through, with
    one result for each statement, in the order of the statements. *)
Theorem helpers_resolve_only (w : world) :
  (forall query params v,
     fst (readTransaction server query params w) = Resolved v ->
     exists records,
       managed server READ query (default (VObj []) params) = inl records /\
       v = extractRecords (DRecords records)) /\
  (forall query params v,
     fst (writeTransaction server query params w) = Resolved v ->
     exists records,
       managed server WRITE query (default (VObj []) params) = inl records /\
       v = extractRecords (DRecords records)) /\
  (forall statements results,
     fst (multipleStatements server statements w) = Resolved results ->
     tx_commit server = None /\
     length results = length statements /\
     exists rss,
       every_statement_succeeds server statements rss /\
       results = map (fun rs => extractRecords (DRecords rs)) rss).
Proof.
  destruct (ready_or_not w) as [Hr | Hn].
  - split; [| split].
    + intros query params v. rewrite (readTransaction_spec server query params w Hr).
      cbn [fst]. destruct (managed server READ query _) as [records |]; [| discriminate].
      intros [= <-]. exists records. split; reflexivity.
    + intros query params v. rewrite (writeTransaction_spec server query params w Hr).
      cbn [fst]. destruct (managed server WRITE query _) as [records |]; [| discriminate].
      intros [= <-]. exists records. split; reflexivity.
    + intros statements results. rewrite (multipleStatements_spec server statements w Hr).
      destruct (answers server 0 statements) as [rss | [j r]] eqn:Hans; [| discriminate].
      destruct (tx_commit server); [discriminate |]. cbn [fst]. intros [= <-].
      split; [reflexivity |]. split.
      * rewrite length_map. apply answers_inl in Hans as [Hlen _]. exact Hlen.
      * exists rss. split; [| reflexivity].
        apply every_statement_succeeds_answers. exact Hans.
  - destruct (not_ready_rejected w Hn) as (H1 & H2 & H3).
    split; [| split]; intros.
    + destruct (H1 query params) as [r Hrej]. rewrite Hrej in H. discriminate.
    + destruct (H2 query params) as [r Hrej]. rewrite Hrej in H. discriminate.
    + destruct (H3 statements) as [r Hrej]. rewrite Hrej in H. discriminate.
Qed.

End transaction_results.

Section transaction_result_runs.
Import Values Normalizer Runtime Transactions.

Let v4 : ServerInfo := {| address := "localhost:7687"; version := "Neo4j/4.4.3" |}.

(** A server with one person in it. *)
Let people : behaviour :=
  {| verifyConnectivity := fun _ => inl v4;
     managed :=
       fun _ _ _ => inl [[("n", VNode (VInt 1) ["Person"] [("age", VInt 30)])]];
     tx_run := fun _ _ _ => inl [[("id", VInt 1)]];
     tx_commit := None;
     tx_rollback := None |}.

Let connected : world :=
  snd (Bootstrap.init people "neo4j://localhost" "neo4j" "secret" None None initial).

Let three : list Statement :=
  [ {| statement := "CREATE (a:Person)"; parameters := VObj [] |};
    {| statement := "CREATE (b:Person"; parameters := VObj [] |};
    {| statement := "MATCH (n) RETURN n"; parameters := VObj [] |} ].

Lemma connected_ready : ready connected.
Proof. split; [eexists; reflexivity | intros _; eexists; reflexivity]. Qed.

Lemma helpers_uninitialised_witness :
  readTransaction people "MATCH (n) RETURN n" None initial
  = (Rejected not_initialized, initial).
Proof.
  apply (proj1 (helpers_uninitialised people initial eq_refl)).
Defined.

Lemma managed_transaction_outcome_witness :
  fst (readTransaction people "MATCH (n) RETURN n" None connected)
  = Resolved (VArr [VObj [("n", VObj [("age", VNum (number_of_Z 30))])]]).
Proof.
  apply (proj1 (managed_transaction_outcome people "MATCH (n) RETURN n" None connected
                  connected_ready)).
Defined.

Lemma multipleStatements_first_failure_witness :
  multipleStatements (refusing_statement 1) three connected
  = (Rejected (Neo4jError "SyntaxError"),
     after connected
       [OpenSession (Some "neo4j") None; BeginTransaction;
        Run "CREATE (a:Person)" (VObj []); Run "CREATE (b:Person" (VObj []);
        Rollback; CloseSession]).
Proof.
  apply (multipleStatements_first_failure (refusing_statement 1) three connected 1
           {| statement := "CREATE (b:Person"; parameters := VObj [] |}
           (Neo4jError "SyntaxError") connected_ready).
  - intros k s' Hk _. destruct k; [eexists; reflexivity | lia].
  - reflexivity.
  - reflexivity.
Defined.

Lemma multipleStatements_rejection_witness :
  (exists j s, nth_error three j = Some s /\
               tx_run (refusing_statement 1) j (statement s) (parameters s)
               = inr (Neo4jError "SyntaxError")) \/
  ((exists rss, every_statement_succeeds (refusing_statement 1) three rss) /\
   tx_commit (refusing_statement 1) = Some (Neo4jError "SyntaxError")).
Proof.
  apply (multipleStatements_rejection (refusing_statement 1) three connected
           (Neo4jError "SyntaxError") connected_ready).
  reflexivity.
Defined.

Lemma helpers_resolve_only_witness :
  (exists records,
     managed people READ "MATCH (n) RETURN n" (default (VObj []) None) = inl records /\
     VArr [VObj [("n", VObj [("age", VNum (number_of_Z 30))])]]
     = extractRecords (DRecords records)) /\
  (tx_commit people = None /\
   length [VArr [VObj [("id", VNum (number_of_Z 1))]];
           VArr [VObj [("id", VNum (number_of_Z 1))]];
           VArr [VObj [("id", VNum (number_of_Z 1))]]] = length three /\
   exists rss,
     every_statement_succeeds people three rss /\
     [VArr [VObj [("id", VNum (number_of_Z 1))]];
      VArr [VObj [("id", VNum (number_of_Z 1))]];
      VArr [VObj [("id", VNum (number_of_Z 1))]]]
     = map (fun rs => extractRecords (DRecords rs)) rss).
Proof.
  split.
  - apply (proj1 (helpers_resolve_only people connected) "MATCH (n) RETURN n" None).
    reflexivity.
  - apply (proj2 (proj2 (helpers_resolve_only people connected)) three).
    reflexivity.
Defined.


End transaction_result_runs.

(** ** Of the pruner *)

Section pruner_results.
Import Values Pruner.

(** X25. On plain data, such as the helpers resolve with, in which no
    object has a property of its own named [hasOwnProperty] and no array
    has [null] or [undefined] as an element, [removeEmptyArrays] returns:
    the result has as many records as the data, and the conditions of the
    loop come out on every record of the result as on the record it was
    made from. (A record with a property [hasOwnProperty] of its own makes
    the call [data[i].hasOwnProperty(key)] of the source throw, and a node
    of the driver has properties that are not among those of the records
    here: both are left out.) *)
Theorem removeEmptyArrays_clean_data data ak ck :
  Normalizer.plain (VArr data) = true ->
  no_own_key "hasOwnProperty" (VArr data) = true ->
  no_nullish_element (VArr data) = true ->
  exists data',
    removeEmptyArrays data ak ck = Return data' /\
    length data' = length data /\
    Forall2 same_shape data data'.
Proof.
  intros _ _ Hclean.
  destruct (removeEmptyArrays_returns data ak ck Hclean) as [data' Hret].
  exists data'. split; [exact Hret |].
  assert (Hshape : Forall2 same_shape data data').
  { apply (removeEmptyArrays_fuel_same_shape (depth (VArr data)) data ak ck).
    rewrite (removeEmptyArrays_fuel_total _ data ak ck (Nat.le_refl _)), Hret. reflexivity. }
  split; [| exact Hshape].
  symmetry. eapply Forall2_length. exact Hshape.
Qed.

(** X26. What [removeEmptyArrays] makes of a record that is a plain
    object, in plain data in which no object has a property of its own
    named [hasOwnProperty]: the keys stay, in their order; the array at
    [arrayKey] becomes empty when its first element has [null] at
    [checkKey]; every other array among the fields is pruned by the same
    function; a field that is no array, an object included, stays as it
    is. *)
Theorem removeEmptyArrays_record_rule data ak ck data' (i : nat) fs :
  Normalizer.plain (VArr data) = true ->
  no_own_key "hasOwnProperty" (VArr data) = true ->
  removeEmptyArrays data ak ck = Return data' ->
  nth_error data i = Some (VObj fs) ->
  exists fs',
    nth_error data' i = Some (VObj fs') /\
    map fst fs' = map fst fs /\
    (to_empty (lookup_property fs ak) ck = true ->
     lookup_property fs' ak = Some (VArr [])) /\
    (forall key l,
       lookup_property fs key = Some (VArr l) ->
       key <> ak \/ to_empty (Some (VArr l)) ck = false ->
       exists l', removeEmptyArrays l ak ck = Return l' /\
                  lookup_property fs' key = Some (VArr l')) /\
    (forall key v,
       lookup_property fs key = Some v -> isArray v = false ->
       lookup_property fs' key = Some v).
Proof. intros _ _. apply removeEmptyArrays_record. Qed.

(** *** Where the call throws *)

Lemma removeEmptyArrays_nullish_record data ak ck (x : value) :
  In x data -> nullish x = true -> removeEmptyArrays data ak ck = TypeError.
Proof.
  intros Hin Hx.
  destruct (removeEmptyArrays data ak ck) as [data' |] eqn:Hret; [| reflexivity].
  exfalso.
  pose proof (removeEmptyArrays_unfold data ak ck) as Hu. rewrite Hret in Hu.
  symmetry in Hu. apply mapM_Return in Hu.
  clear Hret. induction Hu as [| r r' l l' Hr _ IH]; [destruct Hin |].
  destruct Hin as [-> | Hin]; [| exact (IH Hin)].
  destruct x; try discriminate; cbn in Hr; discriminate.
Qed.

(** X27. [removeEmptyArrays] throws a [TypeError] whenever it comes upon
    [null] or [undefined] where it expects a record: among the data
    themselves, or, in plain data, among the elements of an array held by
    a field of a record, unless that array is the one at [arrayKey] and is
    emptied. *)
Theorem removeEmptyArrays_throws data ak ck :
  ((exists x, In x data /\ nullish x = true) ->
   removeEmptyArrays data ak ck = TypeError) /\
  (forall fs key l x,
     Normalizer.plain (VArr data) = true ->
     In (VObj fs) data ->
     lookup_property fs key = Some (VArr l) ->
     key <> ak \/ to_empty (Some (VArr l)) ck = false ->
     In x l -> nullish x = true ->
     removeEmptyArrays data ak ck = TypeError).
Proof.
  split.
  - intros (x & Hin & Hx). eapply removeEmptyArrays_nullish_record; eassumption.
  - intros fs key l x _ Hin Hl Hcase Hx Hnull.
    destruct (removeEmptyArrays data ak ck) as [data' |] eqn:Hret; [| reflexivity].
    exfalso. apply In_nth_error in Hin as [i Hi].
    destruct (removeEmptyArrays_record data ak ck data' i fs Hret Hi)
      as (fs' & _ & _ & _ & Harr & _).
    destruct (Harr key l Hl Hcase) as (l' & Hl' & _).
    rewrite (removeEmptyArrays_nullish_record l ak ck x Hx Hnull) in Hl'. discriminate.
Qed.

(** *** What is left after the loop *)







Let alex : list value :=
  [VObj [("name", VStr "Alex");
         ("address", VObj [("city", VNull)]);
         ("friends", VArr [VObj [("name", VNull)]])]].

Lemma removeEmptyArrays_clean_data_witness :
  exists data',
    removeEmptyArrays alex "friends" "name" = Return data' /\
    length data' = length alex /\
    Forall2 same_shape alex data'.
Proof.
  apply (removeEmptyArrays_clean_data alex "friends" "name"); reflexivity.
Defined.

Lemma removeEmptyArrays_record_rule_witness :
  exists fs',
    nth_error [VObj [("name", VStr "Alex");
                     ("address", VObj [("city", VNull)]);
                     ("friends", VArr [])]] 0
    = Some (VObj fs') /\
    map fst fs' = ["name"; "address"; "friends"] /\
    (to_empty (lookup_property [("name", VStr "Alex");
                                ("address", VObj [("city", VNull)]);
                                ("friends", VArr [VObj [("name", VNull)]])] "friends") "name"
     = true ->
     lookup_property fs' "friends" = Some (VArr [])) /\
    (forall key l,
       lookup_property [("name", VStr "Alex");
                        ("address", VObj [("city", VNull)]);
                        ("friends", VArr [VObj [("name", VNull)]])] key = Some (VArr l) ->
       key <> "friends" \/ to_empty (Some (VArr l)) "name" = false ->
       exists l', removeEmptyArrays l "friends" "name" = Return l' /\
                  lookup_property fs' key = Some (VArr l')) /\
    (forall key v,
       lookup_property [("name", VStr "Alex");
                        ("address", VObj [("city", VNull)]);
                        ("friends", VArr [VObj [("name", VNull)]])] key = Some v ->
       isArray v = false ->
       lookup_property fs' key = Some v).
Proof.
  apply (removeEmptyArrays_record_rule alex "friends" "name"
           [VObj [("name", VStr "Alex");
                  ("address", VObj [("city", VNull)]);
                  ("friends", VArr [])]] 0
           [("name", VStr "Alex");
            ("address", VObj [("city", VNull)]);
            ("friends", VArr [VObj [("name", VNull)]])]);
    reflexivity.
Defined.

Lemma removeEmptyArrays_throws_witness :
  removeEmptyArrays [VObj [("name", VStr "Alex")]; VNull] "friends" "name" = TypeError /\
  removeEmptyArrays
    [VObj [("name", VStr "Alex"); ("friends", VArr [VObj [("name", VStr "Bea")]; VUndefined])]]
    "friends" "name"
  = TypeError.
Proof.
  split.
  - apply (proj1 (removeEmptyArrays_throws [VObj [("name", VStr "Alex")]; VNull]
                    "friends" "name")).
    exists VNull. split; [right; left; reflexivity | reflexivity].
  - apply (proj2 (removeEmptyArrays_throws
                    [VObj [("name", VStr "Alex");
                           ("friends", VArr [VObj [("name", VStr "Bea")]; VUndefined])]]
                    "friends" "name")
             [("name", VStr "Alex");
              ("friends", VArr [VObj [("name", VStr "Bea")]; VUndefined])]
             "friends" [VObj [("name", VStr "Bea")]; VUndefined] VUndefined).
    + reflexivity.
    + left. reflexivity.
    + reflexivity.
    + right. reflexivity.
    + right. left. reflexivity.
    + reflexivity.
Defined.


End pruner_results.
